(** * Version model and bump-resolution engine of the semantic release action

    A shallow embedding of the TypeScript source of the action, in the
    revision that has [ReleaseMode], lists the repository tags and selects the
    latest version with [findLatestVersion (versions, prerelease)], together
    with the functions of the bundled [dist/index.js] that differ from it
    ([findLatestVersion] and its two callers).

    Modelling conventions.
    - A JavaScript [number] is an IEEE double.  The doubles that the code can
      produce are integers, the two infinities and [NaN]; an integer double is
      [Num z], and [undefined] (which array destructuring can leave in a
      field) is a constructor of its own.  Integers up to 2^53 in absolute
      value are doubles; above, [roundDouble] rounds to the nearest double,
      ties to the even mantissa, as [parseInt] and [+] do.
    - [Number.MAX_VALUE], the in-band marker of a final release, is the integer
      2^1024 - 2^971.
    - Number to string conversion is [Number::toString]: the shortest digits
      that read back as the same double, plain up to 21 digits and in exponent
      notation above.
    - A string is a sequence of code units below 256; besides the ASCII white
      space, the no-break space (160) is white space for [parseInt].  For a
      decimal numeral of more than 20 significant digits the language lets an
      implementation approximate; [parseInt] here rounds the exact value, as
      V8 does.
    - [core.setFailed], [core.setOutput], [core.error], [process.exit] and the
      four requests to the hosting API are effects of a small state and error
      monad; [core.info] lines are not recorded.  The module-level constants
      [inputs], [versionBump] and [releaseMode] are the fields of [Config]. *)

From Stdlib Require Import ZArith List String Ascii Bool Lia Permutation.
Import ListNotations.
Local Open Scope string_scope.
Local Open Scope Z_scope.

(* ================================================================= *)
(** ** The JavaScript primitives the code relies on *)

Module JS.

(** The contents of a field typed [number] at run time. *)
Inductive number : Type :=
| Num (z : Z)
| Infinity
| NegInfinity
| NaN
| Undefined.

(** [Number.MAX_VALUE] = (2^53 - 1) * 2^971. *)
Definition MAX_VALUE : Z := 2 ^ 1024 - 2 ^ 971.

(** 2^53: every integer up to it is a double, and adding 1 is exact below
    it. *)
Definition limit : Z := 2 ^ 53.

(** [a > b]: false as soon as an operand is not a number. *)
Definition gt (a b : number) : bool :=
  match a, b with
  | Num x, Num y => x >? y
  | Infinity, Num _ => true
  | Infinity, NegInfinity => true
  | Num _, NegInfinity => true
  | _, _ => false
  end.

(** [a < b]. *)
Definition lt (a b : number) : bool :=
  match a, b with
  | Num x, Num y => x <? y
  | Num _, Infinity => true
  | NegInfinity, Infinity => true
  | NegInfinity, Num _ => true
  | _, _ => false
  end.

(** [a === b] on numbers ([NaN] is not equal to itself). *)
Definition strict_eq (a b : number) : bool :=
  match a, b with
  | Num x, Num y => x =? y
  | Infinity, Infinity => true
  | NegInfinity, NegInfinity => true
  | Undefined, Undefined => true
  | _, _ => false
  end.

(** The mantissa nearest to [q + r / 2^e], ties to the even one. *)
Definition nearest (q e r : Z) : Z :=
  if r <? 2 ^ (e - 1) then q
  else if 2 ^ (e - 1) <? r then q + 1
  else if Z.even q then q else q + 1.

(** The double nearest to the integer [z]: exact up to 2^53 in absolute
    value; above, a mantissa of 53 bits times a power of two, ties to the even
    mantissa; from 2^1024 - 2^970 on, an infinity. *)
Definition roundDouble (z : Z) : number :=
  let a := Z.abs z in
  if a <? limit then Num z
  else
    let e := Z.log2 a - 52 in
    let v := nearest (a / 2 ^ e) e (a mod 2 ^ e) * 2 ^ e in
    if 2 ^ 1024 <=? v then (if z <? 0 then NegInfinity else Infinity)
    else Num (if z <? 0 then - v else v).

(** [x + 1] for an integer double [x]: exact between -2^53 and 2^53; between
    2^53 and 2^54 in absolute value the doubles are the even integers and
    [x + 1] is a tie, which goes to [x] or to [x + 2], whichever has the even
    mantissa; further out the 1 is absorbed. *)
Definition addOne (x : Z) : Z :=
  if (- limit <=? x) && (x <? limit) then x + 1
  else if (Z.abs x <? 2 * limit) && Z.odd (Z.abs x / 2) then x + 2
  else x.

(** [a + 1]. *)
Definition succ (a : number) : number :=
  match a with
  | Num x => Num (addOne x)
  | Infinity => Infinity
  | NegInfinity => NegInfinity
  | NaN => NaN
  | Undefined => NaN
  end.

(** *** Number to string, as a template literal does it *)

Definition digit_char (d : Z) : ascii := ascii_of_nat (48 + Z.to_nat d).

(** Decimal digits of [n], most significant first; [fuel] bounds their
    number. *)
Fixpoint digits_aux (fuel : nat) (n : Z) (acc : list Z) : list Z :=
  match fuel with
  | O => acc
  | S f =>
      let acc' := (n mod 10) :: acc in
      if n <? 10 then acc' else digits_aux f (n / 10) acc'
  end.

Definition digits (n : Z) : list Z :=
  digits_aux (S (Z.to_nat (Z.log2 n))) n [].

Definition string_of_digits (ds : list Z) : string :=
  fold_right (fun d s => String (digit_char d) s) EmptyString ds.

Definition decimal (n : Z) : string := string_of_digits (digits n).

(** [v] reads back as the double [x]. *)
Definition readsAs (v x : Z) : bool :=
  match roundDouble v with
  | Num w => w =? x
  | _ => false
  end.

(** Among the two multiples of [p] around [x], the one closest to [x] that
    reads back as [x] (the even one on a tie), if there is one. *)
Definition candidate (x p : Z) : option Z :=
  let lo := (x / p) * p in
  let hi := lo + p in
  match readsAs lo x, readsAs hi x with
  | true, true =>
      if x - lo <? hi - x then Some lo
      else if hi - x <? x - lo then Some hi
      else if Z.even (x / p) then Some lo else Some hi
  | true, false => Some lo
  | false, true => Some hi
  | false, false => None
  end.

Fixpoint shortestFrom (x : Z) (powers : list Z) : Z :=
  match powers with
  | [] => x
  | p :: powers' =>
      match candidate x p with
      | Some v => v
      | None => shortestFrom x powers'
      end
  end.

(** The integer with the fewest significant digits that reads back as the
    positive double [x]: multiples of 10^(d-1), then of 10^(d-2), and so on
    down to 1, where [d] is the number of digits of [x]. *)
Definition shortest (x : Z) : Z :=
  shortestFrom x
    (map (fun j => 10 ^ Z.of_nat j) (rev (seq 0 (List.length (digits x))))).

Fixpoint dropZeros (ds : list Z) : list Z :=
  match ds with
  | d :: ds' => if d =? 0 then dropZeros ds' else ds
  | [] => []
  end.

(** The digits without the trailing zeros. *)
Definition significant (ds : list Z) : list Z := rev (dropZeros (rev ds)).

(** [Number::toString] of a positive integer double. *)
Definition positiveToString (x : Z) : string :=
  let ds := digits (shortest x) in
  let n := Z.of_nat (List.length ds) in
  if n <=? 21 then string_of_digits ds
  else
    match significant ds with
    | [] => string_of_digits ds
    | [d] => (string_of_digits [d] ++ "e+" ++ decimal (n - 1))%string
    | d :: more =>
        (string_of_digits [d] ++ "." ++ string_of_digits more
         ++ "e+" ++ decimal (n - 1))%string
    end.

Definition toString (a : number) : string :=
  match a with
  | Num z =>
      if z =? 0 then "0"
      else if z <? 0 then ("-" ++ positiveToString (- z))%string
      else positiveToString z
  | Infinity => "Infinity"
  | NegInfinity => "-Infinity"
  | NaN => "NaN"
  | Undefined => "undefined"
  end.

(** *** [String.prototype.split] with a one-character separator *)

Fixpoint split (sep : ascii) (s : string) : list string :=
  match s with
  | EmptyString => [EmptyString]
  | String c s' =>
      if Ascii.eqb c sep then EmptyString :: split sep s'
      else match split sep s' with
           | piece :: pieces => String c piece :: pieces
           | [] => [String c EmptyString]
           end
  end.

(** Array destructuring [[a, b, ...] = arr]: a missing position is
    [undefined]. *)
Definition item {A : Type} (i : nat) (arr : list A) : option A :=
  nth_error arr i.

(** *** [parseInt (s)] with no radix argument *)

Definition is_white_space (c : ascii) : bool :=
  let n := nat_of_ascii c in
  (Nat.eqb n 9 || Nat.eqb n 10 || Nat.eqb n 11 || Nat.eqb n 12
   || Nat.eqb n 13 || Nat.eqb n 32 || Nat.eqb n 160)%bool.

Fixpoint trimStart (s : string) : string :=
  match s with
  | String c s' => if is_white_space c then trimStart s' else s
  | EmptyString => EmptyString
  end.

(** The value of [c] as a digit, when it is one in the given radix. *)
Definition digit_value (radix : Z) (c : ascii) : option Z :=
  let n := Z.of_nat (nat_of_ascii c) in
  let v :=
    if (48 <=? n) && (n <=? 57) then Some (n - 48)
    else if (97 <=? n) && (n <=? 122) then Some (n - 87)
    else if (65 <=? n) && (n <=? 90) then Some (n - 55)
    else None in
  match v with
  | Some d => if d <? radix then Some d else None
  | None => None
  end.

(** The digits of the longest prefix of [s] made of radix digits. *)
Fixpoint digits_prefix (radix : Z) (s : string) : list Z :=
  match s with
  | EmptyString => []
  | String c s' =>
      match digit_value radix c with
      | Some d => d :: digits_prefix radix s'
      | None => []
      end
  end.

Definition mathInt (radix : Z) (ds : list Z) : Z :=
  fold_left (fun a d => a * radix + d) ds 0.

(** An optional sign is read off first. *)
Definition readSign (s : string) : Z * string :=
  match s with
  | String c r =>
      if Ascii.eqb c "-" then (-1, r)
      else if Ascii.eqb c "+" then (1, r)
      else (1, s)
  | EmptyString => (1, s)
  end.

(** With no radix given, a leading [0x] or [0X] selects radix 16. *)
Definition readRadix (s : string) : Z * string :=
  match s with
  | String c (String c' r) =>
      if Ascii.eqb c "0" && (Ascii.eqb c' "x" || Ascii.eqb c' "X")
      then (16, r) else (10, s)
  | _ => (10, s)
  end.

Definition parseInt (s : string) : number :=
  let '(sign, s2) := readSign (trimStart s) in
  let '(radix, s3) := readRadix s2 in
  match digits_prefix radix s3 with
  | [] => NaN
  | ds => roundDouble (sign * mathInt radix ds)
  end.

End JS.

Import JS.
Arguments MAX_VALUE : simpl never.
Arguments limit : simpl never.
Arguments addOne : simpl never.

(* ================================================================= *)
(** ** The [Version] class *)

Record Version : Type := new_Version {
  major : number;
  minor : number;
  patch : number;
  prerelease : number
}.

(** [new Version (major, minor, patch)]: the fourth argument defaults to
    [Number.MAX_VALUE]. *)
Definition final_Version (M N P : number) : Version :=
  new_Version M N P (Num MAX_VALUE).

Definition isMajorRelease (v : Version) : bool :=
  strict_eq (minor v) (Num 0) && strict_eq (patch v) (Num 0).

Definition isMinorRelease (v : Version) : bool :=
  strict_eq (patch v) (Num 0).

Definition isPatchRelease (v : Version) : bool :=
  gt (patch v) (Num 0).

Definition isPreRelease (v : Version) : bool :=
  lt (prerelease v) (Num MAX_VALUE).

Definition isAtLeastMajorRelease (v : Version) : bool :=
  isMajorRelease v.

Definition isAtLeastMinorRelease (v : Version) : bool :=
  isMajorRelease v || isMinorRelease v.

Definition isAtLeastPatchRelease (v : Version) : bool :=
  isMajorRelease v || isMinorRelease v || isPatchRelease v.

Definition compare (this other : Version) : Z :=
  if gt (major this) (major other) then 1
  else if lt (major this) (major other) then -1
  else if gt (minor this) (minor other) then 1
  else if lt (minor this) (minor other) then -1
  else if gt (patch this) (patch other) then 1
  else if lt (patch this) (patch other) then -1
  else if gt (prerelease this) (prerelease other) then 1
  else if lt (prerelease this) (prerelease other) then -1
  else 0.

Definition greaterThan (this other : Version) : bool := compare this other >? 0.
Definition lessThan (this other : Version) : bool := compare this other <? 0.
Definition equals (this other : Version) : bool := compare this other =? 0.

(** The text [`${major}.${minor}.${patch}`] shared by the three templates. *)
Definition triple_text (v : Version) : string :=
  (toString (major v) ++ "." ++ toString (minor v) ++ "." ++ toString (patch v))%string.

Definition toTag (v : Version) : string :=
  if isPreRelease v then
    if strict_eq (prerelease v) (Num 0) then (triple_text v ++ "-pre")%string
    else (triple_text v ++ "-pre." ++ toString (prerelease v))%string
  else triple_text v.

Definition toPublishVersion (v : Version) : string :=
  if isPreRelease v then (triple_text v ++ "-SNAPSHOT")%string
  else triple_text v.

(* ================================================================= *)
(** ** The transition engine *)

(** The [default:] arm of each [switch] below ([setFailed] and
    [process.exit (1)]) has no counterpart: the enumeration is closed. *)
Inductive VersionBumpAction : Type := Major | Minor | Patch.

Definition bumpFromPrereleaseToPrerelease (version : Version)
    (versionBumpAction : VersionBumpAction) : Version :=
  match versionBumpAction with
  | Major =>
      if isAtLeastMajorRelease version
      then new_Version (major version) (Num 0) (Num 0) (succ (prerelease version))
      else new_Version (succ (major version)) (Num 0) (Num 0) (Num 0)
  | Minor =>
      if isAtLeastMinorRelease version
      then new_Version (major version) (minor version) (Num 0) (succ (prerelease version))
      else new_Version (major version) (succ (minor version)) (Num 0) (Num 0)
  | Patch =>
      if isAtLeastPatchRelease version
      then new_Version (major version) (minor version) (patch version)
             (succ (prerelease version))
      else new_Version (major version) (minor version) (succ (patch version)) (Num 0)
  end.

Definition bumpFromPrereleaseToRelease (version : Version)
    (versionBumpAction : VersionBumpAction) : Version :=
  match versionBumpAction with
  | Major =>
      if isAtLeastMajorRelease version
      then final_Version (major version) (Num 0) (Num 0)
      else final_Version (succ (major version)) (Num 0) (Num 0)
  | Minor =>
      if isAtLeastMinorRelease version
      then final_Version (major version) (minor version) (Num 0)
      else final_Version (major version) (succ (minor version)) (Num 0)
  | Patch =>
      if isAtLeastPatchRelease version
      then final_Version (major version) (minor version) (patch version)
      else final_Version (major version) (minor version) (succ (patch version))
  end.

Definition bumpFromReleaseToPrerelease (version : Version)
    (versionBumpAction : VersionBumpAction) : Version :=
  match versionBumpAction with
  | Major => new_Version (succ (major version)) (Num 0) (Num 0) (Num 0)
  | Minor => new_Version (major version) (succ (minor version)) (Num 0) (Num 0)
  | Patch => new_Version (major version) (minor version) (succ (patch version)) (Num 0)
  end.

Definition bumpFromReleaseToRelease (version : Version)
    (versionBumpAction : VersionBumpAction) : Version :=
  match versionBumpAction with
  | Major => final_Version (succ (major version)) (Num 0) (Num 0)
  | Minor => final_Version (major version) (succ (minor version)) (Num 0)
  | Patch => final_Version (major version) (minor version) (succ (patch version))
  end.

Definition getNextVersion (version : Version)
    (versionBumpAction : VersionBumpAction) (prerelease : bool) : Version :=
  if isPreRelease version then
    if prerelease then bumpFromPrereleaseToPrerelease version versionBumpAction
    else bumpFromPrereleaseToRelease version versionBumpAction
  else
    if prerelease then bumpFromReleaseToPrerelease version versionBumpAction
    else bumpFromReleaseToRelease version versionBumpAction.

(** [findLatestVersion] of the TypeScript source: keep the versions whose
    finality is the requested one, then [reduce] to the greatest. *)
Definition findLatestVersion (versions : list Version) (prerelease : bool)
    : option Version :=
  let filteredVersions :=
    filter (fun version => Bool.eqb (isPreRelease version) prerelease) versions in
  match filteredVersions with
  | [] => None
  | first :: rest =>
      Some (fold_left (fun prev current =>
                         if greaterThan prev current then prev else current)
                      rest first)
  end.

(** [findLatestVersion (versions, prereleaseOnly = false)] as the bundled
    [dist/index.js] has it. *)
Module Dist.

Definition findLatestVersion (versions : list Version) (prereleaseOnly : bool)
    : option Version :=
  let filteredVersions :=
    if prereleaseOnly then filter isPreRelease versions else versions in
  match filteredVersions with
  | [] => None
  | first :: rest =>
      Some (fold_left (fun prev current =>
                         if greaterThan prev current then prev else current)
                      rest first)
  end.

End Dist.

(* ================================================================= *)
(** ** Effects: run state, early exit, rejected requests *)

Inductive OutputValue : Type :=
| OutBool (b : bool)
| OutString (s : string)
| OutMissing.

(** What a run leaves behind: the message of [core.setFailed] if it was called,
    the outputs set, the [core.error] lines and the releases asked for. *)
Record RunState : Type := mkRunState {
  failed : option string;
  outputs : list (string * OutputValue);
  errors : list string;
  requested : list (string * bool)
}.

Definition initial : RunState := mkRunState None [] [] [].

Inductive outcome (A : Type) : Type :=
| Return (a : A)
| Exit (code : Z)
| Throw (message : string).
Arguments Return {A} a.
Arguments Exit {A} code.
Arguments Throw {A} message.

Definition M (A : Type) : Type := RunState -> outcome A * RunState.

Definition ret {A} (a : A) : M A := fun st => (Return a, st).

Definition bind {A B} (c : M A) (k : A -> M B) : M B :=
  fun st =>
    match c st with
    | (Return a, st') => k a st'
    | (Exit code, st') => (Exit code, st')
    | (Throw m, st') => (Throw m, st')
    end.

Notation "x <- c ;; k" := (bind c (fun x => k))
  (at level 61, c at next level, right associativity).
Notation "c ;;; k" := (bind c (fun _ => k))
  (at level 61, right associativity).

Definition setFailed (message : string) : M unit :=
  fun st => (Return tt,
             mkRunState (Some message) (outputs st) (errors st) (requested st)).

Definition setOutput (name : string) (value : OutputValue) : M unit :=
  fun st => (Return tt,
             mkRunState (failed st) (outputs st ++ [(name, value)]) (errors st)
                        (requested st)).

Definition error (message : string) : M unit :=
  fun st => (Return tt,
             mkRunState (failed st) (outputs st) (errors st ++ [message])
                        (requested st)).

Definition exit {A} (code : Z) : M A := fun st => (Exit code, st).

Definition throw {A} (message : string) : M A := fun st => (Throw message, st).

(** The answer of the hosting API to one request. *)
Inductive response (A : Type) : Type :=
| Data (data : A)
| Rejected (message : string).
Arguments Data {A} data.
Arguments Rejected {A} message.

(** [(await octokit.request (...)).data] *)
Definition request {A} (r : response A) : M A :=
  match r with
  | Data data => ret data
  | Rejected message => throw message
  end.

Fixpoint mapM {A B} (f : A -> M B) (l : list A) : M (list B) :=
  match l with
  | [] => ret []
  | a :: l' => b <- f a ;; bs <- mapM f l' ;; ret (b :: bs)
  end.

(* ================================================================= *)
(** ** Tag parsing *)

Definition field (o : option number) : number :=
  match o with
  | Some n => n
  | None => Undefined
  end.

(** [x === text] for [x] a string or [undefined]. *)
Definition isString (x : option string) (text : string) : bool :=
  match x with
  | Some s => String.eqb s text
  | None => false
  end.

Definition tagToVersion (tag : string) : M Version :=
  let parts := split "-" tag in
  match item 0 parts with
  | None => throw "TypeError"
  | Some versionPart =>
      let prePart := item 1 parts in
      let numbers := map parseInt (split "." versionPart) in
      let major := field (item 0 numbers) in
      let minor := field (item 1 numbers) in
      let patch := field (item 2 numbers) in
      match prePart with
      | None => ret (new_Version major minor patch (Num MAX_VALUE))
      | Some prePart =>
          let pieces := split "." prePart in
          let pre := item 0 pieces in
          let prereleaseNumber := item 1 pieces in
          if negb (isString pre "pre") then
            setFailed ("Invalid prerelease tag: " ++ tag) ;;; exit 1
          else
            let prerelease :=
              match prereleaseNumber with
              | None => Num 0
              | Some text => parseInt text
              end in
            ret (new_Version major minor patch prerelease)
      end
  end.

(* ================================================================= *)
(** ** Configuration, collaborators and the release modes *)

Inductive ReleaseMode : Type := prerelease_mode | release_mode | promote_mode.

Inductive VersionBump : Type := prlabel | norelease | major_bump | minor_bump | patch_bump.

(** The result of [Enum[input]]: a member, [undefined], or something that is
    neither (the name that a numeral maps back to, an inherited property);
    of the last, only the [text] that a template literal prints is kept. *)
Inductive lookup (E : Type) : Type :=
| Member (e : E)
| Absent
| Foreign (text : string).
Arguments Member {E} e.
Arguments Absent {E}.
Arguments Foreign {E} text.

(** The constants [versionBump] and [releaseMode], and the two fields of
    [inputs] that [main] and [promote] read: [inputs.promoteFrom] and
    [inputs.releaseMode]. *)
Record Config : Type := mkConfig {
  versionBump : lookup VersionBump;
  releaseMode : lookup ReleaseMode;
  promoteFrom : string;
  releaseModeInput : string
}.

Record Release : Type := mkRelease {
  tag_name : string;
  release_prerelease : bool;   (* the field [prerelease] *)
  draft : bool;
  target_commitish : string;
  body : option string
}.

Record PullRequest : Type := mkPullRequest {
  labels : list string          (* [labels.map (label => label.name)] *)
}.

Record World : Type := mkWorld {
  listAssociatedPullRequests : response (list PullRequest);
  listRepositoryTags : response (list string);
  getReleaseByTag : string -> response (option Release);
  createRelease : string -> bool -> response Release
}.

Definition labelAction (label : string) : option VersionBumpAction :=
  if String.eqb label "release:major" then Some Major
  else if String.eqb label "release:minor" then Some Minor
  else if String.eqb label "release:patch" then Some Patch
  else None.

Definition notNull {A} (a : option A) : bool :=
  match a with
  | Some _ => true
  | None => false
  end.

Section Orchestrator.

Variable config : Config.
Variable world : World.

Definition getVersionBumpActionFromPRLabel : M (option VersionBumpAction) :=
  associatedPrs <- request (listAssociatedPullRequests world) ;;
  match associatedPrs with
  | [] => error "No PRs associated with this commit." ;;; ret None
  | targetPr :: _ =>
      let versionBumpActions :=
        filter notNull (map labelAction (labels targetPr)) in
      if (List.length versionBumpActions =? 0)%nat then
        error "No release labels found on the PR." ;;; ret None
      else if (1 <? List.length versionBumpActions)%nat then
        error "Multiple release labels found on the PR." ;;; ret None
      else
        ret (match item 0 versionBumpActions with
             | Some action => action
             | None => None
             end)
  end.

Definition getVersionBumpAction : M (option VersionBumpAction) :=
  match versionBump config with
  | Member norelease => ret None
  | Member prlabel => getVersionBumpActionFromPRLabel
  | Member major_bump => ret (Some Major)
  | Member minor_bump => ret (Some Minor)
  | Member patch_bump => ret (Some Patch)
  | Absent => setFailed "Unhandled version bump mode: undefined" ;;; exit 1
  | Foreign text =>
      setFailed ("Unhandled version bump mode: " ++ text) ;;; exit 1
  end.

Definition getRepoTags : M (list Version) :=
  tags <- request (listRepositoryTags world) ;;
  mapM tagToVersion tags.

Definition getReleaseFromTag (tag : string) : M (option Release) :=
  request (getReleaseByTag world tag).

Definition doRelease (version : Version) : M Release :=
  fun st =>
    request (createRelease world (toTag version) (isPreRelease version))
      (mkRunState (failed st) (outputs st) (errors st)
         (requested st ++ [(toTag version, isPreRelease version)])).

Definition setReleaseOutputs (version : Version) (releaseData : Release) : M unit :=
  setOutput "release_created" (OutBool true) ;;;
  setOutput "tag_name" (OutString (tag_name releaseData)) ;;;
  setOutput "prerelease" (OutBool (release_prerelease releaseData)) ;;;
  setOutput "body" (match body releaseData with
                    | Some text => OutString text
                    | None => OutMissing
                    end) ;;;
  setOutput "publish_version" (OutString (toPublishVersion version)) ;;;
  setOutput "release_type"
    (OutString (if release_prerelease releaseData then "beta" else "release")).

Definition release (prerelease : bool) : M unit :=
  versionBumpAction <- getVersionBumpAction ;;
  match versionBumpAction with
  | None => setOutput "release_created" (OutBool false)
  | Some versionBumpAction =>
      versions <- getRepoTags ;;
      match findLatestVersion versions prerelease with
      | None => setFailed "No releases found."
      | Some latestReleaseVersion =>
          let nextVersion :=
            getNextVersion latestReleaseVersion versionBumpAction prerelease in
          newReleaseData <- doRelease nextVersion ;;
          setReleaseOutputs nextVersion newReleaseData
      end
  end.

(** The first statement of [promote]: where the version to promote comes
    from. *)
Definition promoteTarget : M (option Version) :=
  if String.eqb (promoteFrom config) EmptyString then
    versions <- getRepoTags ;; ret (findLatestVersion versions false)
  else
    version <- tagToVersion (promoteFrom config) ;; ret (Some version).

Definition promote : M unit :=
  targetVersion <- promoteTarget ;;
  match targetVersion with
  | None => setFailed "No version found."
  | Some targetVersion =>
      targetPrerelease <- getReleaseFromTag (toTag targetVersion) ;;
      match targetPrerelease with
      | None => setFailed "No prerelease found."
      | Some targetPrerelease =>
          if negb (release_prerelease targetPrerelease) then
            setFailed "The specified release is not a prerelease."
          else
            latestPrereleaseVersion <- tagToVersion (tag_name targetPrerelease) ;;
            let nextVersion := getNextVersion latestPrereleaseVersion Patch false in
            newReleaseData <- doRelease nextVersion ;;
            setReleaseOutputs nextVersion newReleaseData
      end
  end.

(** [Object.keys (ReleaseMode).join (', ')]: a numeric enumeration has its
    numerals as keys too, and they come first. *)
Definition releaseModeKeys : string := "0, 1, 2, prerelease, release, promote".

(** [main].  Its second test, [releaseMode in [...] && versionBump === null],
    never fires: the lookup of [version_bump] yields [undefined], not [null],
    when it fails. *)
Definition main : M unit :=
  match releaseMode config with
  | Absent =>
      setFailed ("Invalid release_mode: " ++ releaseModeInput config
                 ++ ". release_mode must be one of " ++ releaseModeKeys ++ ".")
  | mode =>
      let isPromote :=
        match mode with Member promote_mode => true | _ => false end in
      if negb isPromote && negb (String.eqb (promoteFrom config) EmptyString) then
        setFailed "promote_from was specified but release_mode was not promote. Please specify release_mode as promote."
      else
        match mode with
        | Member prerelease_mode => release true
        | Member release_mode => release false
        | Member promote_mode => promote
        | Foreign text => setFailed ("Unhandled release mode: " ++ text)
        | Absent => setFailed "Unhandled release mode: undefined"
        end
  end.

(** [main ().catch (err => core.setFailed (err.message))] from a fresh
    state. *)
Definition run : outcome unit * RunState :=
  match main initial with
  | (Throw message, st) => setFailed message st
  | result => result
  end.

End Orchestrator.

(* ================================================================= *)
(** ** Vocabulary of the statements *)

(** The version [M.N.P] with prerelease ordinal [k], all fields integers. *)
Definition preVersion (M N P k : Z) : Version :=
  new_Version (Num M) (Num N) (Num P) (Num k).

(** The final release [M.N.P]. *)
Definition finalVersion (M N P : Z) : Version :=
  final_Version (Num M) (Num N) (Num P).

(** All four fields hold integers. *)
Definition numeric (v : Version) : bool :=
  match major v, minor v, patch v, prerelease v with
  | Num _, Num _, Num _, Num _ => true
  | _, _, _, _ => false
  end.

Definition atLeast (X : VersionBumpAction) (v : Version) : bool :=
  match X with
  | Major => isAtLeastMajorRelease v
  | Minor => isAtLeastMinorRelease v
  | Patch => isAtLeastPatchRelease v
  end.

(** [n + 1] is computed exactly: [n] lies between -2^53 and 2^53 - 1. *)
Definition exact (n : Z) : Prop := - limit <= n < limit.

(** The component that the action names. *)
Definition component (X : VersionBumpAction) (M N P : Z) : Z :=
  match X with
  | Major => M
  | Minor => N
  | Patch => P
  end.

(** The triple cut at component [X], and the triple after a bump of [X]. *)
Definition truncated (X : VersionBumpAction) (M N P : Z) : Z * Z * Z :=
  match X with
  | Major => (M, 0, 0)
  | Minor => (M, N, 0)
  | Patch => (M, N, P)
  end.

Definition bumped (X : VersionBumpAction) (M N P : Z) : Z * Z * Z :=
  match X with
  | Major => (M + 1, 0, 0)
  | Minor => (M, N + 1, 0)
  | Patch => (M, N, P + 1)
  end.

Definition finalOf (t : Z * Z * Z) : Version :=
  let '(M, N, P) := t in finalVersion M N P.

Definition preOf (t : Z * Z * Z) (k : Z) : Version :=
  let '(M, N, P) := t in preVersion M N P k.

(** Lexicographic comparison of two 4-tuples of integers, as -1, 0 or 1. *)
Definition lexicographic (x y : Z * Z * Z * Z) : Z :=
  let '(M1, N1, P1, k1) := x in
  let '(M2, N2, P2, k2) := y in
  match M1 ?= M2 with
  | Lt => -1 | Gt => 1
  | Eq =>
      match N1 ?= N2 with
      | Lt => -1 | Gt => 1
      | Eq =>
          match P1 ?= P2 with
          | Lt => -1 | Gt => 1
          | Eq => match k1 ?= k2 with Lt => -1 | Gt => 1 | Eq => 0 end
          end
      end
  end.

Definition ofTuple (x : Z * Z * Z * Z) : Version :=
  let '(M, N, P, k) := x in preVersion M N P k.

(** The reducer of [findLatestVersion]. *)
Definition pick (prev current : Version) : Version :=
  if greaterThan prev current then prev else current.

(** [c] occurs in [s]. *)
Fixpoint contains (c : ascii) (s : string) : bool :=
  match s with
  | EmptyString => false
  | String c' s' => Ascii.eqb c' c || contains c s'
  end.

(** The part of [s] before the first [sep] (all of [s] if there is none). *)
Fixpoint upTo (sep : ascii) (s : string) : string :=
  match s with
  | EmptyString => EmptyString
  | String c s' => if Ascii.eqb c sep then EmptyString else String c (upTo sep s')
  end.

(** The part of [s] after the first [sep], if there is one. *)
Fixpoint afterFirst (sep : ascii) (s : string) : option string :=
  match s with
  | EmptyString => None
  | String c s' => if Ascii.eqb c sep then Some s' else afterFirst sep s'
  end.

Definition isDigit (d : Z) : Prop := 0 <= d < 10.

Definition fieldsOf (versionPart : string) : number * number * number :=
  let numbers := map parseInt (split "." versionPart) in
  (field (item 0 numbers), field (item 1 numbers), field (item 2 numbers)).

Definition withOrdinal (t : number * number * number) (k : number) : Version :=
  let '(M, N, P) := t in new_Version M N P k.

Definition failedWith (message : string) (st : RunState) : RunState :=
  mkRunState (Some message) (outputs st) (errors st) (requested st).

(** The text [M.N.P] of three naturals. *)
Definition tripleString (M N P : Z) : string :=
  (decimal M ++ "." ++ decimal N ++ "." ++ decimal P)%string.

(** A natural that is at most 2^53: a double, and the value of its own
    decimal numeral. *)
Definition small (n : Z) : Prop := 0 <= n <= limit.

Definition smallb (n : Z) : bool := (0 <=? n) && (n <=? limit).

(** Tags in the serialised format, [M.N.P], [M.N.P-pre] and [M.N.P-pre.K]
    with [K] positive, whose numerals are at most 2^53. *)
Inductive validTag : string -> Prop :=
| validFinal M N P :
    small M -> small N -> small P -> validTag (tripleString M N P)
| validFirstPrerelease M N P :
    small M -> small N -> small P -> validTag (tripleString M N P ++ "-pre")
| validPrerelease M N P K :
    small M -> small N -> small P -> 0 < K <= limit ->
    validTag (tripleString M N P ++ "-pre." ++ decimal K).

(** Naturals up to 2^53 in the first three fields; in the fourth a natural up
    to 2^53, or the marker of final releases. *)
Definition wellFormed (v : Version) : bool :=
  match major v, minor v, patch v, prerelease v with
  | Num M, Num N, Num P, Num k =>
      smallb M && smallb N && smallb P && (smallb k || (k =? MAX_VALUE))
  | _, _, _, _ => false
  end.
Arguments wellFormed : simpl never.

(** A number whose text has no minus sign. *)
Definition notNegative (a : number) : bool :=
  match a with
  | Num z => 0 <=? z
  | NegInfinity => false
  | _ => true
  end.

(** No minus sign in the first three fields. *)
Definition plainTriple (v : Version) : bool :=
  notNegative (major v) && notNegative (minor v) && notNegative (patch v).

(** The reading of "the suffix is literally [pre] or [pre.K]": the whole text
    after the first dash is [pre], or [pre.] followed by a numeral. *)
Definition literallyPre (suffix : string) : Prop :=
  suffix = "pre" \/ exists K, 0 <= K /\ suffix = ("pre." ++ decimal K)%string.

(** The three release labels and the action that each one names. *)
Definition releaseLabels : list (string * VersionBumpAction) :=
  [("release:major", Major); ("release:minor", Minor); ("release:patch", Patch)].

Fixpoint lookupLabel (table : list (string * VersionBumpAction)) (name : string)
    : option VersionBumpAction :=
  match table with
  | [] => None
  | (label, action) :: table' =>
      if String.eqb name label then Some action else lookupLabel table' name
  end.

(** The actions named by the release labels among [names], in order. *)
Fixpoint matchingActions (names : list string) : list VersionBumpAction :=
  match names with
  | [] => []
  | name :: names' =>
      match lookupLabel releaseLabels name with
      | Some action => action :: matchingActions names'
      | None => matchingActions names'
      end
  end.

Definition logged (message : string) (st : RunState) : RunState :=
  mkRunState (failed st) (outputs st) (errors st ++ [message]) (requested st).

Definition withOutput (name : string) (value : OutputValue) (st : RunState)
    : RunState :=
  mkRunState (failed st) (outputs st ++ [(name, value)]) (errors st) (requested st).

Definition exampleRelease (tag : string) (pre : bool) : Release :=
  mkRelease tag pre false "main" None.

(** A repository with the tags [1.0.0] and [1.1.0-pre] and one pull request
    labelled [release:minor] and [release:patch]. *)
Definition exampleWorld : World :=
  mkWorld
    (Data [mkPullRequest ["release:minor"; "release:patch"]])
    (Data ["1.0.0"; "1.1.0-pre"])
    (fun tag => Data (Some (exampleRelease tag true)))
    (fun tag pre => Data (exampleRelease tag pre)).


(** Three configurations: a release driven by the labels, a patch release, a
    promotion with no [promote_from]. *)
Definition prlabelConfig : Config :=
  mkConfig (Member prlabel) (Member release_mode) EmptyString "release".

Definition patchConfig : Config :=
  mkConfig (Member patch_bump) (Member release_mode) EmptyString "release".

Definition promoteConfig : Config :=
  mkConfig Absent (Member promote_mode) EmptyString "promote".

(** Components below 2^53 and an ordinal that is below 2^53 or the marker of
    final releases: the increments that the engine makes on such a version are
    exact. *)
Definition incrementable (v : Version) : bool :=
  match major v, minor v, patch v, prerelease v with
  | Num M, Num N, Num P, Num k =>
      (M <? limit) && (N <? limit) && (P <? limit)
      && ((k <? limit) || (k =? MAX_VALUE))
  | _, _, _, _ => false
  end.

Definition allNumeric (versions : list Version) : Prop :=
  Forall (fun v => numeric v = true) versions.

(** [latest] is the greatest of the [versions] of finality [flag]. *)
Definition greatestOfFinality (flag : bool) (versions : list Version)
    (latest : Version) : Prop :=
  In latest versions /\ isPreRelease latest = flag
  /\ forall w, In w versions -> isPreRelease w = flag -> compare w latest <= 0.

Definition requesting (tag : string) (pre : bool) (st : RunState) : RunState :=
  mkRunState (failed st) (outputs st) (errors st) (requested st ++ [(tag, pre)]).

(* ================================================================= *)
(** ** The release modes of the bundled [dist/index.js] *)

(** [release] and [promote] as [dist/index.js] has them: they differ from the
    TypeScript source in the call of [findLatestVersion] only. *)
Module DistRun.

Section Orchestrator.

Variable config : Config.
Variable world : World.

Definition release (prerelease : bool) : M unit :=
  versionBumpAction <- getVersionBumpAction config world ;;
  match versionBumpAction with
  | None => setOutput "release_created" (OutBool false)
  | Some versionBumpAction =>
      versions <- getRepoTags world ;;
      match Dist.findLatestVersion versions false with
      | None => setFailed "No releases found."
      | Some latestReleaseVersion =>
          let nextVersion :=
            getNextVersion latestReleaseVersion versionBumpAction prerelease in
          newReleaseData <- doRelease world nextVersion ;;
          setReleaseOutputs nextVersion newReleaseData
      end
  end.

Definition promoteTarget : M (option Version) :=
  if String.eqb (promoteFrom config) EmptyString then
    versions <- getRepoTags world ;; ret (Dist.findLatestVersion versions true)
  else
    version <- tagToVersion (promoteFrom config) ;; ret (Some version).

Definition promote : M unit :=
  targetVersion <- promoteTarget ;;
  match targetVersion with
  | None => setFailed "No version found."
  | Some targetVersion =>
      targetPrerelease <- getReleaseFromTag world (toTag targetVersion) ;;
      match targetPrerelease with
      | None => setFailed "No prerelease found."
      | Some targetPrerelease =>
          if negb (release_prerelease targetPrerelease) then
            setFailed "The specified release is not a prerelease."
          else
            latestPrereleaseVersion <- tagToVersion (tag_name targetPrerelease) ;;
            let nextVersion := getNextVersion latestPrereleaseVersion Patch false in
            newReleaseData <- doRelease world nextVersion ;;
            setReleaseOutputs nextVersion newReleaseData
      end
  end.

End Orchestrator.

End DistRun.

(** [tagToVersion] gives up on [tag]: it has a dash, and the piece after it
    does not start with the marker [pre]. *)
Definition rejects (tag : string) : bool :=
  match afterFirst "-" tag with
  | Some suffix => negb (String.eqb (upTo "." (upTo "-" suffix)) "pre")
  | None => false
  end.

Definition invalidTag (tag : string) : string :=
  ("Invalid prerelease tag: " ++ tag)%string.

(** The integer triple of a version whose first three fields are integers. *)
Definition tripleOf (v : Version) : option (Z * Z * Z) :=
  match major v, minor v, patch v with
  | Num M, Num N, Num P => Some (M, N, P)
  | _, _, _ => None
  end.

(** The output that announces a release. *)
Definition announced (st : RunState) : Prop :=
  In ("release_created", OutBool true) (outputs st).

(** A run that ends normally or through [process.exit (1)] after
    [core.setFailed]. *)
Definition orderly {A} (r : outcome A * RunState) : Prop :=
  match r with
  | (Return _, _) => True
  | (Exit code, st) => code = 1 /\ failed st <> None
  | (Throw _, _) => False
  end.

(** A computation that exits only with code 1 and only after the run was
    marked as failed. *)
Definition orderlyM {A} (c : M A) : Prop :=
  forall st,
    match c st with
    | (Exit code, st') => code = 1 /\ failed st' <> None
    | _ => True
    end.

(** A computation that asks for no release, sets no output and, when it
    returns, has not marked the run as failed. *)
Definition frame {A} (c : M A) : Prop :=
  forall st,
    requested (snd (c st)) = requested st
    /\ outputs (snd (c st)) = outputs st
    /\ (forall a, fst (c st) = Return a -> failed (snd (c st)) = failed st).

(** From [st] to the result [r]: at most one more release was asked for, and
    a release is newly announced only by a computation that returned after
    exactly one request, without marking the run as failed. *)
Definition atMostOneRequest (st : RunState) (r : outcome unit * RunState) : Prop :=
  exists extra,
    requested (snd r) = (requested st ++ extra)%list
    /\ (List.length extra <= 1)%nat
    /\ (announced (snd r) ->
        announced st
        \/ (fst r = Return tt /\ failed (snd r) = failed st
            /\ List.length extra = 1%nat)).

(* ================================================================= *)
(** ** Numbers: exact and inexact increments, rounding *)

Lemma MAX_VALUE_pos : 0 < MAX_VALUE.
Proof. reflexivity. Qed.

Lemma limit_pos : 0 < limit.
Proof. reflexivity. Qed.

Lemma limit_below_MAX_VALUE : 2 * limit + 2 < MAX_VALUE.
Proof. reflexivity. Qed.

Lemma addOne_exact n : exact n -> addOne n = n + 1.
Proof.
  intros [Hlo Hhi]. unfold addOne.
  apply Z.leb_le in Hlo as ->. now apply Z.ltb_lt in Hhi as ->.
Qed.

Lemma addOne_limit : addOne limit = limit.
Proof. reflexivity. Qed.

Lemma addOne_cases n : addOne n = n + 1 \/ (addOne n = n + 2 /\ Z.abs n < 2 * limit) \/ addOne n = n.
Proof.
  unfold addOne.
  destruct ((- limit <=? n) && (n <? limit)); [now left|].
  destruct (Z.ltb_spec (Z.abs n) (2 * limit)); cbn [andb]; [|now right; right].
  destruct (Z.odd (Z.abs n / 2)); [right; left; now split|now right; right].
Qed.

Lemma addOne_ge n : n <= addOne n.
Proof. destruct (addOne_cases n) as [H|[[H _]|H]]; lia. Qed.

Lemma addOne_room k : k + 1 < MAX_VALUE -> addOne k < MAX_VALUE.
Proof.
  intros Hk. pose proof limit_below_MAX_VALUE as Hmax.
  destruct (addOne_cases k) as [H|[[H ?]|H]]; lia.
Qed.

Lemma addOne_small n : small n -> small (addOne n).
Proof.
  intros [Hlo Hhi]. unfold small.
  destruct (Z.eq_dec n limit) as [->|Hne]; [rewrite addOne_limit; lia|].
  rewrite addOne_exact; unfold exact; lia.
Qed.

Lemma smallb_small n : smallb n = true <-> small n.
Proof.
  unfold smallb, small. rewrite andb_true_iff, !Z.leb_le. tauto.
Qed.

Lemma roundDouble_exact z : - limit < z < limit -> roundDouble z = Num z.
Proof.
  intros Hz. unfold roundDouble.
  replace (Z.abs z <? limit) with true; [reflexivity|].
  symmetry. apply Z.ltb_lt. lia.
Qed.

Lemma roundDouble_limit : roundDouble limit = Num limit.
Proof. reflexivity. Qed.

Lemma roundDouble_small n : small n -> roundDouble n = Num n.
Proof.
  intros [Hlo Hhi].
  destruct (Z.eq_dec n limit) as [->|Hne]; [apply roundDouble_limit|].
  apply roundDouble_exact. pose proof limit_pos. lia.
Qed.

(** Rounding does not take an integer from 2^53 on below 2^53. *)
Lemma roundDouble_large v w :
  limit <= v -> roundDouble v = Num w -> limit <= w.
Proof.
  intros Hv. unfold roundDouble, nearest.
  pose proof limit_pos as Hl.
  rewrite (Z.abs_eq v) by lia.
  destruct (Z.ltb_spec v limit) as [|_]; [lia|].
  set (e := Z.log2 v - 52).
  assert (Hlog : 53 <= Z.log2 v).
  { apply Z.log2_le_pow2; [lia|exact Hv]. }
  assert (He : 0 < e) by (unfold e; lia).
  set (q := v / 2 ^ e). set (r := v mod 2 ^ e).
  assert (Hpow : 0 < 2 ^ e) by (apply Z.pow_pos_nonneg; lia).
  assert (Hq : 2 ^ 52 <= q).
  { unfold q. apply Z.div_le_lower_bound; [exact Hpow|].
    rewrite Z.mul_comm, <- Z.pow_add_r by lia.
    replace (52 + e) with (Z.log2 v) by (unfold e; lia).
    apply Z.log2_spec. lia. }
  set (m := if r <? 2 ^ (e - 1) then q
            else if 2 ^ (e - 1) <? r then q + 1
            else if Z.even q then q else q + 1).
  assert (Hm : q <= m)
    by (unfold m; destruct (r <? 2 ^ (e - 1)), (2 ^ (e - 1) <? r), (Z.even q);
        lia).
  assert (Hbig : limit <= m * 2 ^ e).
  { assert (H2 : 2 <= 2 ^ e).
    { change 2 with (2 ^ 1) at 1. apply Z.pow_le_mono_r; lia. }
    change limit with (2 ^ 52 * 2). nia. }
  destruct (2 ^ 1024 <=? m * 2 ^ e); [destruct (v <? 0); discriminate|].
  destruct (Z.ltb_spec v 0); [lia|]. intros [= <-]. exact Hbig.
Qed.

(** Rounding, given the mantissa, the exponent and the remainder. *)
Lemma roundDouble_mantissa z q e r :
  Z.abs z = q * 2 ^ e + r -> 2 ^ 52 <= q < 2 ^ 53 -> 0 < e -> 0 <= r < 2 ^ e ->
  roundDouble z =
    if 2 ^ 1024 <=? nearest q e r * 2 ^ e
    then (if z <? 0 then NegInfinity else Infinity)
    else Num (if z <? 0 then - (nearest q e r * 2 ^ e) else nearest q e r * 2 ^ e).
Proof.
  intros Hz Hq He Hr. unfold roundDouble, nearest.
  assert (Hpow : 0 < 2 ^ e) by (apply Z.pow_pos_nonneg; lia).
  assert (H2 : 2 <= 2 ^ e).
  { change 2 with (2 ^ 1) at 1. apply Z.pow_le_mono_r; lia. }
  assert (Hbig : limit <= Z.abs z) by (change limit with (2 ^ 52 * 2); nia).
  destruct (Z.ltb_spec (Z.abs z) limit) as [|_]; [lia|].
  assert (Hlog : Z.log2 (Z.abs z) = 52 + e).
  { apply Z.log2_unique; [lia|].
    replace (Z.succ (52 + e)) with (53 + e) by lia.
    rewrite !Z.pow_add_r by lia. nia. }
  replace (Z.log2 (Z.abs z) - 52) with e by lia.
  assert (Hdiv : Z.abs z / 2 ^ e = q).
  { symmetry. apply (Z.div_unique_pos _ _ q r); [lia|]. lia. }
  assert (Hmod : Z.abs z mod 2 ^ e = r).
  { symmetry. apply (Z.mod_unique_pos _ _ q r); [lia|]. lia. }
  rewrite Hdiv, Hmod. reflexivity.
Qed.

(** An integer double from 2^53 on is a 53-bit mantissa times a power of
    two. *)
Lemma roundDouble_fixed z :
  limit <= Z.abs z -> roundDouble z = Num z ->
  exists q e, Z.abs z = q * 2 ^ e /\ 2 ^ 52 <= q < 2 ^ 53 /\ 0 < e
              /\ Z.abs z < 2 ^ 1024.
Proof.
  intros Ha. pose proof limit_pos as Hl.
  assert (Hlog : 53 <= Z.log2 (Z.abs z)) by (apply Z.log2_le_pow2; [lia|exact Ha]).
  set (e := Z.log2 (Z.abs z) - 52).
  assert (He : 0 < e) by (unfold e; lia).
  assert (Hpow : 0 < 2 ^ e) by (apply Z.pow_pos_nonneg; lia).
  pose proof (Z.log2_spec (Z.abs z) ltac:(lia)) as [Hlo Hhi].
  replace (Z.log2 (Z.abs z)) with (52 + e) in Hlo by (unfold e; lia).
  replace (Z.succ (Z.log2 (Z.abs z))) with (53 + e) in Hhi by (unfold e; lia).
  rewrite Z.pow_add_r in Hlo, Hhi by lia.
  pose proof (Z.div_mod (Z.abs z) (2 ^ e) ltac:(lia)) as Hdm.
  pose proof (Z.mod_pos_bound (Z.abs z) (2 ^ e) Hpow) as Hr.
  set (q := Z.abs z / 2 ^ e) in *. set (r := Z.abs z mod 2 ^ e) in *.
  assert (Hq : 2 ^ 52 <= q < 2 ^ 53) by nia.
  rewrite (roundDouble_mantissa z q e r) by lia.
  assert (Hm : nearest q e r = q \/ nearest q e r = q + 1)
    by (unfold nearest;
        destruct (r <? 2 ^ (e - 1)), (2 ^ (e - 1) <? r), (Z.even q); auto).
  destruct (Z.leb_spec (2 ^ 1024) (nearest q e r * 2 ^ e)) as [|Hsmall];
    [destruct (z <? 0); discriminate|].
  intros [= E].
  assert (Ev : nearest q e r * 2 ^ e = Z.abs z)
    by (destruct (Z.ltb_spec z 0); lia).
  exists q, e.
  assert (r = 0) by (destruct Hm as [Hm|Hm]; rewrite Hm in Ev; nia).
  split; [lia|]. split; [exact Hq|]. split; [exact He|]. lia.
Qed.

Lemma pow2_split e : 0 < e -> 2 ^ e = 2 * 2 ^ (e - 1).
Proof.
  intros He. rewrite <- Z.pow_succ_r by lia. f_equal. lia.
Qed.

(** [addOne] is [x + 1] rounded, for every integer double [x]. *)
Lemma addOne_rounds z : roundDouble z = Num z -> roundDouble (z + 1) = Num (addOne z).
Proof.
  intros Hz. pose proof limit_pos as Hl.
  destruct (Z.le_gt_cases (- limit) z) as [Hlo|Hlo];
    [destruct (Z.lt_ge_cases z limit) as [Hhi|Hhi]|].
  - (* exact range *)
    rewrite addOne_exact by (split; assumption).
    destruct (Z.eq_dec (z + 1) limit) as [->|Hne]; [apply roundDouble_limit|].
    apply roundDouble_exact. lia.
  - (* from 2^53 on *)
    destruct (roundDouble_fixed z ltac:(lia) Hz) as (q & e & Ha & Hq & He & Hmax).
    rewrite Z.abs_eq in Ha, Hmax by lia.
    assert (Hpow : 2 ^ e = 2 * 2 ^ (e - 1)) by now apply pow2_split.
    assert (Hpos : 0 < 2 ^ (e - 1)) by (apply Z.pow_pos_nonneg; lia).
    rewrite (roundDouble_mantissa (z + 1) q e 1) by lia.
    destruct (Z.ltb_spec (z + 1) 0) as [|_]; [lia|].
    unfold addOne.
    destruct (Z.ltb_spec z limit) as [|_]; [lia|]. rewrite andb_false_r.
    rewrite (Z.abs_eq z) by lia. unfold nearest.
    destruct (Z.eq_dec e 1) as [->|He1].
    + change (2 ^ (1 - 1)) with 1 in *. change (2 ^ 1) with 2 in *.
      cbn [Z.ltb Z.compare Pos.compare Pos.compare_cont].
      assert (Hdiv : z / 2 = q) by (rewrite Ha; apply Z.div_mul; lia).
      rewrite Hdiv.
      destruct (Z.ltb_spec z (2 * limit)) as [_|Hge];
        [|change limit with (2 ^ 53) in Hge; lia].
      cbn [andb]. rewrite <- Z.negb_odd.
      destruct (Z.odd q); cbn [negb].
      * destruct (Z.leb_spec (2 ^ 1024) ((q + 1) * 2)) as [Hbad|_]; [lia|].
        f_equal. lia.
      * destruct (Z.leb_spec (2 ^ 1024) (q * 2)) as [Hbad|_]; [lia|].
        f_equal. lia.
    + assert (Hge2 : 2 <= 2 ^ (e - 1)).
      { change 2 with (2 ^ 1) at 1. apply Z.pow_le_mono_r; lia. }
      destruct (Z.ltb_spec 1 (2 ^ (e - 1))) as [_|]; [|lia].
      destruct (Z.leb_spec (2 ^ 1024) (q * 2 ^ e)) as [Hbad|_]; [lia|].
      destruct (Z.ltb_spec z (2 * limit)) as [Hlt|_];
        [change limit with (2 ^ 53) in Hlt; nia|].
      cbn [andb]. f_equal. lia.
  - (* below -2^53 *)
    destruct (roundDouble_fixed z ltac:(lia) Hz) as (q & e & Ha & Hq & He & Hmax).
    rewrite Z.abs_neq in Ha, Hmax by lia.
    assert (Hpow : 2 ^ e = 2 * 2 ^ (e - 1)) by now apply pow2_split.
    assert (Hpos : 0 < 2 ^ (e - 1)) by (apply Z.pow_pos_nonneg; lia).
    unfold addOne.
    destruct (Z.leb_spec (- limit) z) as [|_]; [lia|]. cbn [andb].
    rewrite (Z.abs_neq z) by lia.
    destruct (Z.eq_dec q (2 ^ 52)) as [->|Hq52].
    + (* a power of two: the doubles below it are twice as dense *)
      assert (He2 : 1 < e).
      { destruct (Z.eq_dec e 1) as [->|]; [|lia].
        change (2 ^ 52 * 2 ^ 1) with limit in Ha. lia. }
      assert (Hpow' : 2 ^ (e - 1) = 2 * 2 ^ (e - 1 - 1)) by (apply pow2_split; lia).
      assert (Hpos' : 0 < 2 ^ (e - 1 - 1)) by (apply Z.pow_pos_nonneg; lia).
      rewrite (roundDouble_mantissa (z + 1) (2 ^ 53 - 1) (e - 1) (2 ^ (e - 1) - 1))
        by (try rewrite Z.abs_neq by lia; lia).
      destruct (Z.ltb_spec (z + 1) 0) as [_|]; [|lia].
      assert (Hm : nearest (2 ^ 53 - 1) (e - 1) (2 ^ (e - 1) - 1) = 2 ^ 53).
      { unfold nearest.
        destruct (Z.ltb_spec (2 ^ (e - 1) - 1) (2 ^ (e - 1 - 1))) as [|_]; [lia|].
        destruct (2 ^ (e - 1 - 1) <? 2 ^ (e - 1) - 1); reflexivity. }
      rewrite Hm.
      destruct (Z.leb_spec (2 ^ 1024) (2 ^ 53 * 2 ^ (e - 1))) as [Hbad|_]; [lia|].
      destruct (Z.ltb_spec (- z) (2 * limit)) as [Hlt|_];
        [change limit with (2 ^ 53) in Hlt; nia|].
      cbn [andb]. f_equal. lia.
    + rewrite (roundDouble_mantissa (z + 1) (q - 1) e (2 ^ e - 1))
        by (try rewrite Z.abs_neq by lia; lia).
      destruct (Z.ltb_spec (z + 1) 0) as [_|]; [|lia].
      unfold nearest.
      destruct (Z.ltb_spec (2 ^ e - 1) (2 ^ (e - 1))) as [|_]; [lia|].
      destruct (Z.eq_dec e 1) as [->|He1].
      * change (2 ^ (1 - 1)) with 1 in *. change (2 ^ 1) with 2 in *.
        cbn [Z.sub Z.add Z.opp Z.pos_sub Z.ltb Z.compare Pos.compare
             Pos.compare_cont Pos.pred_double Z.succ_double Z.pred_double].
        assert (Hdiv : - z / 2 = q) by (rewrite Ha; apply Z.div_mul; lia).
        rewrite Hdiv.
        destruct (Z.ltb_spec (- z) (2 * limit)) as [_|Hge];
          [|change limit with (2 ^ 53) in Hge; lia].
        cbn [andb].
        replace (Z.even (q - 1)) with (Z.odd q)
          by (rewrite Z.even_sub, <- Z.negb_odd; now destruct (Z.odd q)).
        destruct (Z.odd q).
        -- destruct (Z.leb_spec (2 ^ 1024) ((q - 1) * 2)) as [Hbad|_]; [lia|].
           f_equal. lia.
        -- destruct (Z.leb_spec (2 ^ 1024) ((q - 1 + 1) * 2)) as [Hbad|_]; [lia|].
           f_equal. lia.
      * assert (Hge2 : 2 <= 2 ^ (e - 1)).
        { change 2 with (2 ^ 1) at 1. apply Z.pow_le_mono_r; lia. }
        destruct (Z.ltb_spec (2 ^ (e - 1)) (2 ^ e - 1)) as [_|]; [|lia].
        destruct (Z.leb_spec (2 ^ 1024) ((q - 1 + 1) * 2 ^ e)) as [Hbad|_]; [nia|].
        destruct (Z.ltb_spec (- z) (2 * limit)) as [Hlt|_];
          [change limit with (2 ^ 53) in Hlt; nia|].
        cbn [andb]. f_equal. nia.
Qed.

(* ================================================================= *)
(** ** The transition engine: case analysis *)

Lemma isPreRelease_preVersion M N P k :
  isPreRelease (preVersion M N P k) = (k <? MAX_VALUE).
Proof. reflexivity. Qed.

Lemma isPreRelease_finalVersion M N P :
  isPreRelease (finalVersion M N P) = false.
Proof. reflexivity. Qed.

(** The three "at least" predicates on integer fields. *)
Lemma atLeast_Major M N P k :
  atLeast Major (preVersion M N P k) = (N =? 0) && (P =? 0).
Proof. reflexivity. Qed.

Lemma atLeast_Minor M N P k :
  atLeast Minor (preVersion M N P k) = (P =? 0).
Proof.
  unfold atLeast, isAtLeastMinorRelease, isMajorRelease, isMinorRelease; cbn.
  destruct (N =? 0), (P =? 0); reflexivity.
Qed.

Lemma atLeast_Patch M N P k :
  0 <= P -> atLeast Patch (preVersion M N P k) = true.
Proof.
  intros HP.
  unfold atLeast, isAtLeastPatchRelease, isMajorRelease, isMinorRelease,
    isPatchRelease; cbn.
  destruct (Z.eqb_spec P 0) as [->|HP0].
  - now rewrite orb_true_r.
  - replace (P >? 0) with true; [now rewrite !orb_true_r|].
    symmetry. apply Z.gtb_lt. lia.
Qed.

Ltac engine_cases :=
  unfold getNextVersion, bumpFromPrereleaseToPrerelease,
    bumpFromPrereleaseToRelease, bumpFromReleaseToPrerelease,
    bumpFromReleaseToRelease, atLeast, isAtLeastMajorRelease,
    isAtLeastMinorRelease, isAtLeastPatchRelease, isMajorRelease,
    isMinorRelease, isPatchRelease, finalOf, preOf, truncated, bumped,
    finalVersion, final_Version, preVersion; cbn.

Ltac in_range := cbn [component]; unfold exact, small, limit; lia.

(** C1, as stated, fails where the increment is not exact.  The tag
    [1.0.0-pre.9007199254740992] is a prerelease that is at least a patch
    release, and a patch prerelease from it keeps the ordinal 2^53 instead of
    adding one; [9007199254740992.1.0-pre] is not at least a major release,
    and a major release from it keeps the major 2^53 instead of bumping it. *)
Lemma increment_absorbed_at_2_53 :
  limit = 9007199254740992
  /\ tagToVersion "1.0.0-pre.9007199254740992" initial
     = (Return (preVersion 1 0 0 9007199254740992), initial)
  /\ isPreRelease (preVersion 1 0 0 9007199254740992) = true
  /\ atLeast Patch (preVersion 1 0 0 9007199254740992) = true
  /\ getNextVersion (preVersion 1 0 0 9007199254740992) Patch true
     = preVersion 1 0 0 9007199254740992
  /\ getNextVersion (preVersion 1 0 0 9007199254740992) Patch true
     <> preOf (truncated Patch 1 0 0) (9007199254740992 + 1)
  /\ tagToVersion "9007199254740992.1.0-pre" initial
     = (Return (preVersion 9007199254740992 1 0 0), initial)
  /\ atLeast Major (preVersion 9007199254740992 1 0 0) = false
  /\ getNextVersion (preVersion 9007199254740992 1 0 0) Major false
     = finalVersion 9007199254740992 0 0
  /\ getNextVersion (preVersion 9007199254740992 1 0 0) Major false
     <> finalOf (bumped Major 9007199254740992 1 0).
Proof.
  repeat split; try (vm_compute; reflexivity); vm_compute; discriminate.
Qed.

(** C1, amended.  A prerelease [M.N.P-pre.k] bumped by [X], the component
    that [X] names being between -2^53 and 2^53 - 1: towards a final release,
    if the version is already at least an [X] release the result is the triple
    cut at [X], final, with nothing incremented, otherwise component [X] is
    incremented, the lower ones zeroed, and the result is final; towards a
    prerelease, with [k] in the same range, the same test chooses between the
    cut triple at ordinal [k + 1] and the bumped triple at ordinal 0. *)
Theorem prerelease_transitions (X : VersionBumpAction) (M N P k : Z)
    (Hpre : isPreRelease (preVersion M N P k) = true)
    (Hc : exact (component X M N P)) :
  getNextVersion (preVersion M N P k) X false =
    (if atLeast X (preVersion M N P k)
     then finalOf (truncated X M N P) else finalOf (bumped X M N P))
  /\ (exact k ->
      getNextVersion (preVersion M N P k) X true =
        (if atLeast X (preVersion M N P k)
         then preOf (truncated X M N P) (k + 1) else preOf (bumped X M N P) 0)).
Proof.
  unfold getNextVersion. rewrite Hpre.
  destruct X; cbn [component] in Hc; engine_cases;
    destruct (N =? 0), (P =? 0), (P >? 0); cbn;
    rewrite ?(addOne_exact _ Hc);
    (split; [reflexivity|intros Hk; now rewrite ?(addOne_exact _ Hk)]).
Qed.

Lemma prerelease_transitions_witness :
  getNextVersion (preVersion 1 2 0 4) Minor false = finalVersion 1 2 0
  /\ getNextVersion (preVersion 1 2 0 4) Minor true = preVersion 1 2 0 5.
Proof.
  destruct (prerelease_transitions Minor 1 2 0 4 eq_refl ltac:(in_range))
    as [Hfinal Hpre].
  split; [exact Hfinal|]. apply Hpre. in_range.
Defined.

(** The transition behind a promotion. *)
Lemma promotion_transition M N P k :
  0 <= P -> k < MAX_VALUE ->
  getNextVersion (preVersion M N P k) Patch false = finalVersion M N P.
Proof.
  intros HP Hk. unfold getNextVersion.
  rewrite isPreRelease_preVersion. apply Z.ltb_lt in Hk as ->.
  cbn [bumpFromPrereleaseToRelease].
  change (isAtLeastPatchRelease (preVersion M N P k))
    with (atLeast Patch (preVersion M N P k)).
  now rewrite atLeast_Patch.
Qed.

(* ================================================================= *)
(** ** [Version.compare] *)

Lemma gt_lt a b : gt a b = lt b a.
Proof. destruct a, b; cbn; auto using Z.gtb_ltb. Qed.

Lemma lt_asym a b : lt a b = true -> lt b a = false.
Proof.
  destruct a, b; cbn; try discriminate; try reflexivity; intros H.
  apply Z.ltb_lt in H. apply Z.ltb_ge. lia.
Qed.

Lemma lt_irrefl a : lt a a = false.
Proof. destruct a; cbn; auto using Z.ltb_irrefl. Qed.

Lemma compare_refl v : compare v v = 0.
Proof. unfold compare. now rewrite !gt_lt, !lt_irrefl. Qed.

Ltac lt_cases a b :=
  let E1 := fresh "E" in
  let E2 := fresh "E" in
  destruct (lt a b) eqn:E1; destruct (lt b a) eqn:E2;
  try (apply lt_asym in E1; congruence).

Lemma compare_antisym a b : compare a b = - compare b a.
Proof.
  unfold compare. rewrite !gt_lt.
  lt_cases (major a) (major b); try reflexivity.
  lt_cases (minor a) (minor b); try reflexivity.
  lt_cases (patch a) (patch b); try reflexivity.
  lt_cases (prerelease a) (prerelease b); reflexivity.
Qed.

Ltac ltb_cases :=
  repeat match goal with
         | |- context [if ?a <? ?b then _ else _] => destruct (Z.ltb_spec a b)
         end.

Lemma compare_lexicographic x y :
  compare (ofTuple x) (ofTuple y) = lexicographic x y.
Proof.
  destruct x as [[[M1 N1] P1] k1], y as [[[M2 N2] P2] k2].
  unfold compare, lexicographic; cbn. rewrite !Z.gtb_ltb.
  destruct (Z.compare_spec M1 M2), (Z.compare_spec N1 N2),
    (Z.compare_spec P1 P2), (Z.compare_spec k1 k2);
    ltb_cases; first [reflexivity | lia].
Qed.

Lemma compare_le_iff M1 N1 P1 k1 M2 N2 P2 k2 :
  compare (preVersion M1 N1 P1 k1) (preVersion M2 N2 P2 k2) <= 0 <->
  M1 < M2 \/ M1 = M2 /\
    (N1 < N2 \/ N1 = N2 /\ (P1 < P2 \/ P1 = P2 /\ k1 <= k2)).
Proof.
  unfold compare; cbn. rewrite !Z.gtb_ltb. ltb_cases; lia.
Qed.

Lemma compare_lt_iff M1 N1 P1 k1 M2 N2 P2 k2 :
  compare (preVersion M1 N1 P1 k1) (preVersion M2 N2 P2 k2) < 0 <->
  M1 < M2 \/ M1 = M2 /\
    (N1 < N2 \/ N1 = N2 /\ (P1 < P2 \/ P1 = P2 /\ k1 < k2)).
Proof.
  unfold compare; cbn. rewrite !Z.gtb_ltb. ltb_cases; lia.
Qed.

Lemma compare_range a b : compare a b = -1 \/ compare a b = 0 \/ compare a b = 1.
Proof.
  unfold compare.
  repeat match goal with
         | |- context [if ?c then _ else _] => destruct c
         end; auto.
Qed.

Lemma numeric_preVersion v :
  numeric v = true -> exists M N P k, v = preVersion M N P k.
Proof.
  destruct v as [[] [] [] []]; cbn; try discriminate.
  intros _. now repeat eexists.
Qed.

Lemma compare_trans_numeric a b c :
  numeric a = true -> numeric b = true -> numeric c = true ->
  compare a b <= 0 -> compare b c <= 0 -> compare a c <= 0.
Proof.
  intros Ha Hb Hc.
  destruct (numeric_preVersion a Ha) as (M1 & N1 & P1 & k1 & ->).
  destruct (numeric_preVersion b Hb) as (M2 & N2 & P2 & k2 & ->).
  destruct (numeric_preVersion c Hc) as (M3 & N3 & P3 & k3 & ->).
  rewrite !compare_le_iff. lia.
Qed.

(** C2.  [compare] is reflexive and antisymmetric on every version; on versions
    with integer fields it is the lexicographic order of the 4-tuples, hence
    transitive and total, and equal to 0 only on equal tuples; the final
    release of a triple is above each of its prereleases. *)
Theorem compare_total_order (v w : Version) (x y z : Z * Z * Z * Z) :
  compare v v = 0
  /\ compare v w = - compare w v
  /\ compare (ofTuple x) (ofTuple y) = lexicographic x y
  /\ (compare (ofTuple x) (ofTuple y) <= 0 ->
      compare (ofTuple y) (ofTuple z) <= 0 ->
      compare (ofTuple x) (ofTuple z) <= 0)
  /\ (compare (ofTuple x) (ofTuple y) < 0 ->
      compare (ofTuple y) (ofTuple z) < 0 ->
      compare (ofTuple x) (ofTuple z) < 0)
  /\ (compare (ofTuple x) (ofTuple y) = 0 -> x = y)
  /\ (forall M N P k, isPreRelease (preVersion M N P k) = true ->
      compare (finalVersion M N P) (preVersion M N P k) = 1)
  /\ compare (finalVersion 1 2 0) (preVersion 1 2 0 9) = 1
  /\ compare (preVersion 1 2 0 9) (preVersion 1 2 0 0) = 1
  /\ compare (preVersion 1 2 0 0) (finalVersion 1 1 9) = 1.
Proof.
  split; [apply compare_refl|].
  split; [apply compare_antisym|].
  split; [apply compare_lexicographic|].
  destruct x as [[[M1 N1] P1] k1], y as [[[M2 N2] P2] k2],
    z as [[[M3 N3] P3] k3]; cbn [ofTuple].
  split; [rewrite !compare_le_iff; lia|].
  split; [rewrite !compare_lt_iff; lia|].
  split.
  { intros H.
    assert (H1 : compare (preVersion M1 N1 P1 k1) (preVersion M2 N2 P2 k2) <= 0) by lia.
    assert (H2 : compare (preVersion M2 N2 P2 k2) (preVersion M1 N1 P1 k1) <= 0)
      by (rewrite compare_antisym; lia).
    apply compare_le_iff in H1, H2.
    repeat f_equal; lia. }
  split.
  { intros M N P k Hk. rewrite isPreRelease_preVersion in Hk.
    apply Z.ltb_lt in Hk.
    unfold compare, finalVersion, final_Version; cbn.
    rewrite !Z.gtb_ltb, !Z.ltb_irrefl.
    now apply Z.ltb_lt in Hk as ->. }
  repeat split.
Qed.

Lemma compare_total_order_witness :
  compare (preVersion 1 1 9 0) (preVersion 1 2 0 0) <= 0
  /\ compare (preVersion 1 2 0 0) (preVersion 1 2 0 9) <= 0
  /\ compare (preVersion 1 1 9 0) (preVersion 1 2 0 9) <= 0
  /\ compare (finalVersion 1 2 0) (preVersion 1 2 0 9) = 1.
Proof.
  destruct (compare_total_order (preVersion 0 0 0 0) (preVersion 0 0 0 0)
              (1, 1, 9, 0) (1, 2, 0, 0) (1, 2, 0, 9))
    as (_ & _ & _ & Hle & _ & _ & Hfinal & _).
  assert (H1 : compare (ofTuple (1, 1, 9, 0)) (ofTuple (1, 2, 0, 0)) <= 0)
    by (vm_compute; discriminate).
  assert (H2 : compare (ofTuple (1, 2, 0, 0)) (ofTuple (1, 2, 0, 9)) <= 0)
    by (vm_compute; discriminate).
  split; [exact H1|]. split; [exact H2|].
  split; [exact (Hle H1 H2)|].
  apply Hfinal. reflexivity.
Defined.

(* ================================================================= *)
(** ** Monotonicity and finality of the engine *)

Ltac engine_tests :=
  repeat match goal with
         | |- context [?a =? 0] => destruct (Z.eqb_spec a 0); cbn
         | |- context [?a >? 0] =>
             rewrite (Z.gtb_ltb a 0); destruct (Z.ltb_spec 0 a); cbn
         end.

(** The next version is above the current one when the increment that the
    transition makes is exact. *)
Lemma next_above M N P k X p :
  exact (component X M N P) ->
  (isPreRelease (preVersion M N P k) = true -> p = true -> exact k) ->
  compare (getNextVersion (preVersion M N P k) X p) (preVersion M N P k) = 1.
Proof.
  intros Hc Hk. unfold getNextVersion. rewrite isPreRelease_preVersion in *.
  destruct (Z.ltb_spec k MAX_VALUE), p, X; cbn [component] in Hc;
    try specialize (Hk eq_refl eq_refl);
    engine_cases; engine_tests;
    rewrite ?(addOne_exact _ Hc), ?(addOne_exact _ Hk);
    unfold compare; cbn; rewrite ?Z.gtb_ltb; ltb_cases; try lia; reflexivity.
Qed.

(** C9, as stated, fails at 2^53: the final release [9007199254740992.0.0]
    bumped by [Major] is the same version again, and compares equal to it. *)
Lemma bump_absorbed_not_greater :
  tagToVersion "9007199254740992.0.0" initial
  = (Return (finalVersion 9007199254740992 0 0), initial)
  /\ getNextVersion (finalVersion 9007199254740992 0 0) Major false
     = finalVersion 9007199254740992 0 0
  /\ compare (getNextVersion (finalVersion 9007199254740992 0 0) Major false)
             (finalVersion 9007199254740992 0 0) = 0
  /\ greaterThan (getNextVersion (finalVersion 9007199254740992 0 0) Major false)
                 (finalVersion 9007199254740992 0 0) = false.
Proof. repeat split; vm_compute; reflexivity. Qed.

(** C9, amended.  Whatever the integer fields of the current version, the
    action and the target, the next version is strictly above the current one
    provided the component that the action names lies between -2^53 and
    2^53 - 1 and so does the ordinal of a prerelease that is advanced. *)
Theorem getNextVersion_increases (M N P k : Z) (X : VersionBumpAction) (p : bool)
    (Hc : exact (component X M N P))
    (Hk : isPreRelease (preVersion M N P k) = true -> p = true -> exact k) :
  compare (getNextVersion (preVersion M N P k) X p) (preVersion M N P k) = 1
  /\ greaterThan (getNextVersion (preVersion M N P k) X p) (preVersion M N P k) = true.
Proof.
  pose proof (next_above M N P k X p Hc Hk) as H.
  split; [exact H|]. unfold greaterThan. now rewrite H.
Qed.

Lemma getNextVersion_increases_witness :
  compare (getNextVersion (preVersion 1 2 3 4) Minor true) (preVersion 1 2 3 4) = 1
  /\ greaterThan (getNextVersion (preVersion 1 2 3 4) Minor true)
                 (preVersion 1 2 3 4) = true.
Proof.
  apply (getNextVersion_increases 1 2 3 4 Minor true); [|intros _ _]; in_range.
Defined.

(** C10.  The next version is a prerelease exactly when a prerelease was
    asked for, provided the ordinal of a prerelease that is advanced stays
    below the marker of final releases. *)
Theorem getNextVersion_finality (M N P k : Z) (X : VersionBumpAction) (p : bool)
    (Hroom : isPreRelease (preVersion M N P k) = true -> p = true ->
             k + 1 < MAX_VALUE) :
  isPreRelease (getNextVersion (preVersion M N P k) X p) = p.
Proof.
  unfold getNextVersion. rewrite isPreRelease_preVersion in *.
  destruct (Z.ltb_spec k MAX_VALUE) as [Hk|Hk], p; cbn in Hroom.
  - specialize (Hroom eq_refl eq_refl). apply addOne_room in Hroom.
    destruct X; engine_cases;
      repeat match goal with
             | |- context [if ?c then _ else _] => destruct c; cbn
             end;
      unfold isPreRelease; cbn; try reflexivity; now apply Z.ltb_lt.
  - destruct X; engine_cases;
      repeat match goal with
             | |- context [if ?c then _ else _] => destruct c; cbn
             end; reflexivity.
  - destruct X; reflexivity.
  - destruct X; reflexivity.
Qed.

Lemma getNextVersion_finality_witness :
  isPreRelease (getNextVersion (preVersion 1 2 3 2) Patch true) = true.
Proof.
  apply (getNextVersion_finality 1 2 3 2 Patch true).
  intros _ _. reflexivity.
Defined.

(* ================================================================= *)
(** ** Selection of the latest version *)

Lemma pick_cases prev current :
  (pick prev current = prev /\ compare current prev <= 0)
  \/ (pick prev current = current /\ compare prev current <= 0).
Proof.
  unfold pick, greaterThan.
  destruct (Z.gtb_spec (compare prev current) 0) as [H|H].
  - left. split; [reflexivity|]. rewrite compare_antisym. lia.
  - right. split; [reflexivity|lia].
Qed.

Lemma reduce_greatest (rest : list Version) :
  forall first,
    Forall (fun v => numeric v = true) (first :: rest) ->
    let r := fold_left pick rest first in
    In r (first :: rest) /\ forall w, In w (first :: rest) -> compare w r <= 0.
Proof.
  induction rest as [|c rest IH]; intros first Hnum; cbn.
  - split; [now left|]. intros w [<-|[]]. rewrite compare_refl. lia.
  - inversion Hnum as [|? ? Hfirst Hrest]; subst.
    inversion Hrest as [|? ? Hc Hrest']; subst.
    assert (Hp : numeric (pick first c) = true)
      by (destruct (pick_cases first c) as [[-> _]|[-> _]]; assumption).
    destruct (IH (pick first c) (Forall_cons _ Hp Hrest')) as [Hin Hmax].
    split.
    + destruct Hin as [Hin|Hin]; [|now right; right].
      rewrite <- Hin.
      destruct (pick_cases first c) as [[-> _]|[-> _]]; [now left|now right; left].
    + assert (Hr : numeric (fold_left pick rest (pick first c)) = true).
      { rewrite Forall_forall in Hrest'.
        destruct Hin as [<-|Hin]; [assumption|now apply Hrest']. }
      assert (Hpr := Hmax _ (or_introl eq_refl)).
      set (r := fold_left pick rest (pick first c)) in *.
      intros w [<-|[<-|Hw]].
      * destruct (pick_cases first c) as [[E _]|[E Hle]].
        -- now rewrite E in Hpr.
        -- rewrite E in Hpr. now apply (compare_trans_numeric first c r).
      * destruct (pick_cases first c) as [[E Hle]|[E _]].
        -- rewrite E in Hpr. now apply (compare_trans_numeric c first r).
        -- now rewrite E in Hpr.
      * apply Hmax. now right.
Qed.

Lemma findLatestVersion_greatest versions flag latest :
  Forall (fun v => numeric v = true) versions ->
  findLatestVersion versions flag = Some latest ->
  In latest versions /\ isPreRelease latest = flag
  /\ forall w, In w versions -> isPreRelease w = flag -> compare w latest <= 0.
Proof.
  intros Hnum. unfold findLatestVersion.
  set (keep := fun version => Bool.eqb (isPreRelease version) flag).
  destruct (filter keep versions) as [|first rest] eqn:Hf; [discriminate|].
  intros [= <-].
  assert (Hsub : forall w, In w (first :: rest) <-> In w versions /\ keep w = true)
    by (intros w; rewrite <- Hf; apply filter_In).
  assert (Hnum' : Forall (fun v => numeric v = true) (first :: rest)).
  { rewrite Forall_forall in *. intros w Hw. apply Hnum. now apply Hsub. }
  destruct (reduce_greatest rest first Hnum') as [Hin Hmax].
  fold pick in *. apply Hsub in Hin as [Hin Hkeep].
  split; [assumption|]. split; [now apply eqb_prop|].
  intros w Hw Hflag. apply Hmax, Hsub. split; [assumption|].
  unfold keep. rewrite Hflag. apply eqb_reflx.
Qed.

Lemma findLatestVersion_none versions flag :
  findLatestVersion versions flag = None ->
  forall w, In w versions -> isPreRelease w = negb flag.
Proof.
  unfold findLatestVersion.
  destruct (filter _ versions) as [|first rest] eqn:Hf; [|discriminate].
  intros _ w Hw.
  destruct (Bool.eqb (isPreRelease w) flag) eqn:E.
  - assert (Hin : In w []) by (rewrite <- Hf; apply filter_In; now split).
    destruct Hin.
  - destruct (isPreRelease w), flag; cbn in *; congruence.
Qed.

(** The variant of [dist/index.js] called with its default argument does take
    the greatest of all the versions. *)
Lemma Dist_findLatestVersion_greatest versions latest :
  Forall (fun v => numeric v = true) versions ->
  Dist.findLatestVersion versions false = Some latest ->
  In latest versions /\ forall w, In w versions -> compare w latest <= 0.
Proof.
  intros Hnum. unfold Dist.findLatestVersion.
  destruct versions as [|first rest]; [discriminate|].
  intros [= <-]. exact (reduce_greatest rest first Hnum).
Qed.

(* ================================================================= *)
(** ** Strings: [split], decimal numerals and [parseInt] *)

Lemma append_assoc (a b c : string) : ((a ++ b) ++ c = a ++ (b ++ c))%string.
Proof. induction a as [|x a IH]; cbn; [reflexivity|now rewrite IH]. Qed.

Lemma contains_append c a b :
  contains c (a ++ b) = contains c a || contains c b.
Proof.
  induction a as [|x a IH]; cbn; [reflexivity|].
  now rewrite IH, orb_assoc.
Qed.

Lemma split_unfold sep s :
  split sep s =
  upTo sep s :: match afterFirst sep s with
                | Some rest => split sep rest
                | None => []
                end.
Proof.
  induction s as [|c s IH]; cbn; [reflexivity|].
  destruct (Ascii.eqb c sep); [reflexivity|]. now rewrite IH.
Qed.

Lemma upTo_absent sep s : contains sep s = false -> upTo sep s = s.
Proof.
  induction s as [|c s IH]; cbn; [reflexivity|].
  intros H. apply orb_false_elim in H as [-> H]. now rewrite IH.
Qed.

Lemma afterFirst_absent sep s : contains sep s = false <-> afterFirst sep s = None.
Proof.
  induction s as [|c s IH]; cbn; [tauto|].
  destruct (Ascii.eqb c sep); cbn; [split; discriminate|exact IH].
Qed.

Lemma upTo_append sep a b :
  contains sep a = false -> upTo sep (a ++ String sep b) = a.
Proof.
  induction a as [|c a IH]; cbn.
  - now rewrite Ascii.eqb_refl.
  - intros H. apply orb_false_elim in H as [-> H]. now rewrite IH.
Qed.

Lemma afterFirst_append sep a b :
  contains sep a = false -> afterFirst sep (a ++ String sep b) = Some b.
Proof.
  induction a as [|c a IH]; cbn.
  - now rewrite Ascii.eqb_refl.
  - intros H. apply orb_false_elim in H as [-> H]. now apply IH.
Qed.

Lemma split_absent sep s : contains sep s = false -> split sep s = [s].
Proof.
  intros H. rewrite split_unfold, upTo_absent by assumption.
  apply afterFirst_absent in H. now rewrite H.
Qed.

Lemma split_append sep a b :
  contains sep a = false -> split sep (a ++ String sep b) = a :: split sep b.
Proof.
  intros H. now rewrite split_unfold, upTo_append, afterFirst_append.
Qed.

(** *** Decimal numerals *)

Lemma digits_aux_acc fuel : forall n acc,
  digits_aux fuel n acc = (digits_aux fuel n [] ++ acc)%list.
Proof.
  induction fuel as [|f IH]; intros n acc; cbn; [reflexivity|].
  destruct (n <? 10); [reflexivity|].
  rewrite (IH _ (_ :: acc)), (IH _ [_]), <- app_assoc. reflexivity.
Qed.

Lemma mathInt_snoc radix ds d :
  mathInt radix (ds ++ [d])%list = mathInt radix ds * radix + d.
Proof. unfold mathInt. now rewrite fold_left_app. Qed.

Lemma digits_aux_value fuel : forall n,
  0 <= n < 2 ^ Z.of_nat fuel -> mathInt 10 (digits_aux fuel n []) = n.
Proof.
  induction fuel as [|f IH]; intros n Hn.
  - cbn in *. lia.
  - cbn [digits_aux]. destruct (Z.ltb_spec n 10) as [Hlt|Hge].
    + cbn. rewrite Z.mod_small; lia.
    + rewrite digits_aux_acc, mathInt_snoc, IH.
      * pose proof (Z.div_mod n 10). lia.
      * rewrite Nat2Z.inj_succ, Z.pow_succ_r in Hn by lia.
        split; [apply Z.div_pos; lia|].
        apply Z.div_lt_upper_bound; lia.
Qed.

Lemma digits_aux_isDigit fuel : forall n acc,
  Forall isDigit acc -> Forall isDigit (digits_aux fuel n acc).
Proof.
  induction fuel as [|f IH]; intros n acc Hacc; cbn; [assumption|].
  assert (Hd : isDigit (n mod 10)) by (apply Z.mod_pos_bound; lia).
  destruct (n <? 10); [now constructor|]. apply IH. now constructor.
Qed.

Lemma digits_value n : 0 <= n -> mathInt 10 (digits n) = n.
Proof.
  intros Hn. unfold digits. apply digits_aux_value. split; [assumption|].
  rewrite Nat2Z.inj_succ, Z2Nat.id by apply Z.log2_nonneg.
  destruct (Z.eq_dec n 0) as [->|Hn0]; [reflexivity|].
  apply Z.log2_spec. lia.
Qed.

Lemma digits_isDigit n : Forall isDigit (digits n).
Proof. apply digits_aux_isDigit. constructor. Qed.

Lemma digits_nonempty n : digits n <> [].
Proof.
  unfold digits. cbn [digits_aux]. destruct (n <? 10); [discriminate|].
  rewrite digits_aux_acc. intros H. apply app_eq_nil in H as [_ H]. discriminate.
Qed.

(** What matters about the ten digit characters. *)
Lemma digit_char_facts d :
  isDigit d ->
  digit_value 10 (digit_char d) = Some d
  /\ is_white_space (digit_char d) = false
  /\ Ascii.eqb (digit_char d) "-" = false
  /\ Ascii.eqb (digit_char d) "+" = false
  /\ Ascii.eqb (digit_char d) "." = false
  /\ Ascii.eqb (digit_char d) "x" = false
  /\ Ascii.eqb (digit_char d) "X" = false.
Proof.
  intros Hd.
  assert (H : d = 0 \/ d = 1 \/ d = 2 \/ d = 3 \/ d = 4 \/ d = 5 \/ d = 6
              \/ d = 7 \/ d = 8 \/ d = 9) by (unfold isDigit in Hd; lia).
  repeat (destruct H as [->|H]; [repeat split|]); subst; repeat split.
Qed.

Lemma contains_digits c ds :
  (forall d, isDigit d -> Ascii.eqb (digit_char d) c = false) ->
  Forall isDigit ds -> contains c (string_of_digits ds) = false.
Proof.
  intros Hc Hds. induction Hds as [|d ds Hd _ IH]; [reflexivity|].
  cbn [string_of_digits fold_right contains]. fold (string_of_digits ds).
  now rewrite Hc, IH.
Qed.

Lemma decimal_no_dot n : contains "." (decimal n) = false.
Proof.
  apply contains_digits; [|apply digits_isDigit].
  intros d Hd. apply (digit_char_facts d Hd).
Qed.

Lemma decimal_no_dash n : contains "-" (decimal n) = false.
Proof.
  apply contains_digits; [|apply digits_isDigit].
  intros d Hd. apply (digit_char_facts d Hd).
Qed.

Lemma digits_prefix_digits ds :
  Forall isDigit ds -> digits_prefix 10 (string_of_digits ds) = ds.
Proof.
  intros Hds. induction Hds as [|d ds Hd _ IH]; [reflexivity|].
  cbn [string_of_digits fold_right digits_prefix]. fold (string_of_digits ds).
  destruct (digit_char_facts d Hd) as [-> _]. now rewrite IH.
Qed.

Lemma parseInt_digits ds :
  ds <> [] -> Forall isDigit ds ->
  parseInt (string_of_digits ds) = roundDouble (mathInt 10 ds).
Proof.
  intros Hne Hds. destruct Hds as [|d ds Hd Hds]; [congruence|].
  destruct (digit_char_facts d Hd) as (Hv & Hw & Hm & Hp & _).
  assert (Hradix : readRadix (string_of_digits (d :: ds))
                   = (10, string_of_digits (d :: ds))).
  { destruct Hds as [|d' ds Hd' _]; [reflexivity|].
    cbn [string_of_digits fold_right readRadix].
    destruct (digit_char_facts d' Hd') as (_ & _ & _ & _ & _ & -> & ->).
    now rewrite andb_false_r. }
  unfold parseInt.
  replace (trimStart (string_of_digits (d :: ds)))
    with (string_of_digits (d :: ds))
    by (cbn [string_of_digits fold_right trimStart]; now rewrite Hw).
  replace (readSign (string_of_digits (d :: ds)))
    with (1, string_of_digits (d :: ds))
    by (cbn [string_of_digits fold_right readSign]; now rewrite Hm, Hp).
  rewrite Hradix, digits_prefix_digits by now constructor.
  cbv beta iota. rewrite Z.mul_1_l. reflexivity.
Qed.

(** A decimal numeral reads as the double nearest to its value. *)
Lemma parseInt_numeral n : 0 <= n -> parseInt (decimal n) = roundDouble n.
Proof.
  intros Hn. unfold decimal.
  rewrite parseInt_digits, digits_value;
    auto using digits_nonempty, digits_isDigit.
Qed.

Lemma parseInt_decimal n : small n -> parseInt (decimal n) = Num n.
Proof.
  intros Hn. rewrite parseInt_numeral by apply Hn. now apply roundDouble_small.
Qed.

(** *** Number to string *)

Lemma readsAs_exact v x :
  0 <= v -> 0 < x < limit -> readsAs v x = true -> v = x.
Proof.
  intros Hv Hx. unfold readsAs.
  destruct (Z.ltb_spec v limit) as [Hlt|Hge].
  - rewrite roundDouble_exact by (pose proof limit_pos; lia).
    apply Z.eqb_eq.
  - destruct (roundDouble v) as [w| | | |] eqn:E; try discriminate.
    apply roundDouble_large in E; [|exact Hge].
    intros H. apply Z.eqb_eq in H. lia.
Qed.

Lemma candidate_exact x p v :
  0 < x < limit -> 0 < p -> candidate x p = Some v -> v = x.
Proof.
  intros Hx Hp. unfold candidate.
  assert (Hlo : 0 <= x / p * p).
  { apply Z.mul_nonneg_nonneg; [apply Z.div_pos|]; lia. }
  assert (Hhi : 0 <= x / p * p + p) by lia.
  destruct (readsAs (x / p * p) x) eqn:E1;
    destruct (readsAs (x / p * p + p) x) eqn:E2;
    try (apply (readsAs_exact _ _ Hlo Hx) in E1);
    try (apply (readsAs_exact _ _ Hhi Hx) in E2);
    repeat match goal with
           | |- context [if ?c then _ else _] => destruct c
           end;
    congruence.
Qed.

Lemma shortestFrom_exact x powers :
  0 < x < limit -> Forall (fun p => 0 < p) powers -> shortestFrom x powers = x.
Proof.
  intros Hx Hpos. induction Hpos as [|p powers Hp _ IH]; [reflexivity|].
  cbn [shortestFrom]. destruct (candidate x p) as [v|] eqn:E; [|exact IH].
  now apply candidate_exact with (p := p).
Qed.

(** Below 2^53 the shortest digits are the digits. *)
Lemma shortest_exact x : 0 < x < limit -> shortest x = x.
Proof.
  intros Hx. apply shortestFrom_exact; [exact Hx|].
  apply Forall_forall. intros p Hin. apply in_map_iff in Hin as (j & <- & _).
  apply Z.pow_pos_nonneg; lia.
Qed.

Lemma digits_aux_length k : forall fuel n acc,
  0 <= n < 10 ^ Z.of_nat (S k) ->
  (List.length (digits_aux fuel n acc) <= S k + List.length acc)%nat.
Proof.
  induction k as [|k IH]; intros fuel n acc Hn.
  - destruct fuel as [|f]; cbn [digits_aux]; [lia|].
    change (10 ^ Z.of_nat 1) with 10 in Hn.
    destruct (Z.ltb_spec n 10); [cbn; lia|lia].
  - destruct fuel as [|f]; cbn [digits_aux]; [lia|].
    destruct (Z.ltb_spec n 10); [cbn; lia|].
    assert (Hdiv : 0 <= n / 10 < 10 ^ Z.of_nat (S k)).
    { rewrite (Nat2Z.inj_succ (S k)), Z.pow_succ_r in Hn by lia.
      split; [apply Z.div_pos; lia|apply Z.div_lt_upper_bound; lia]. }
    specialize (IH f (n / 10) (n mod 10 :: acc) Hdiv). cbn in IH. lia.
Qed.

Lemma digits_length_small n : small n -> Z.of_nat (List.length (digits n)) <= 21.
Proof.
  intros [Hlo Hhi].
  assert (H : (List.length (digits n) <= 16 + 0)%nat).
  { apply (digits_aux_length 15). split; [exact Hlo|].
    apply Z.le_lt_trans with (m := limit); [exact Hhi|reflexivity]. }
  lia.
Qed.

Lemma toString_natural n : small n -> toString (Num n) = decimal n.
Proof.
  intros Hn. pose proof Hn as [Hlo Hhi].
  destruct (Z.eq_dec n 0) as [->|Hn0]; [reflexivity|].
  destruct (Z.eq_dec n limit) as [->|Hnl]; [vm_compute; reflexivity|].
  unfold toString.
  destruct (Z.eqb_spec n 0) as [|_]; [lia|].
  destruct (Z.ltb_spec n 0) as [|_]; [lia|].
  unfold positiveToString. rewrite shortest_exact by lia.
  pose proof (digits_length_small n Hn) as Hlen.
  apply Z.leb_le in Hlen. now rewrite Hlen.
Qed.

Lemma dropZeros_isDigit ds : Forall isDigit ds -> Forall isDigit (dropZeros ds).
Proof.
  intros H. induction H as [|d ds Hd Hds IH]; cbn; [constructor|].
  destruct (d =? 0); [exact IH|now constructor].
Qed.

Lemma significant_isDigit ds : Forall isDigit ds -> Forall isDigit (significant ds).
Proof.
  intros H. unfold significant.
  apply Forall_rev, dropZeros_isDigit, Forall_rev, H.
Qed.

Lemma digits_no_dash ds :
  Forall isDigit ds -> contains "-" (string_of_digits ds) = false.
Proof.
  apply contains_digits. intros d Hd. apply (digit_char_facts d Hd).
Qed.

(** The text of a number that is not negative has no minus sign, in exponent
    notation either. *)
Lemma toString_no_dash a : notNegative a = true -> contains "-" (toString a) = false.
Proof.
  destruct a as [z| | | |]; try reflexivity; try discriminate.
  cbn [notNegative toString]. intros Hz. apply Z.leb_le in Hz.
  destruct (z =? 0); [reflexivity|].
  destruct (Z.ltb_spec z 0) as [|_]; [lia|].
  unfold positiveToString.
  pose proof (digits_isDigit (shortest z)) as Hds.
  destruct (_ <=? 21); [now apply digits_no_dash|].
  pose proof (significant_isDigit _ Hds) as Hsig.
  destruct (significant (digits (shortest z))) as [|d [|d' more]].
  - now apply digits_no_dash.
  - rewrite !contains_append, (digits_no_dash [d] Hsig), decimal_no_dash.
    reflexivity.
  - inversion Hsig as [|? ? Hd Hmore]; subst.
    assert (H1 : Forall isDigit [d]) by (constructor; [exact Hd|constructor]).
    rewrite !contains_append, (digits_no_dash [d] H1),
      (digits_no_dash _ Hmore), decimal_no_dash.
    reflexivity.
Qed.

(* ================================================================= *)
(** ** [tagToVersion] in terms of the text around the dashes and dots *)

Lemma item_1_split sep s :
  item 1 (split sep s) = option_map (upTo sep) (afterFirst sep s).
Proof.
  rewrite split_unfold. cbn. destruct (afterFirst sep s) as [rest|]; cbn.
  - now rewrite split_unfold.
  - reflexivity.
Qed.

Lemma item_0_split sep s : item 0 (split sep s) = Some (upTo sep s).
Proof. now rewrite split_unfold. Qed.

Lemma tagToVersion_unfold tag st :
  tagToVersion tag st =
  match afterFirst "-" tag with
  | None =>
      (Return (withOrdinal (fieldsOf (upTo "-" tag)) (Num MAX_VALUE)), st)
  | Some suffix =>
      let prePart := upTo "-" suffix in
      if String.eqb (upTo "." prePart) "pre" then
        (Return (withOrdinal (fieldsOf (upTo "-" tag))
                   match afterFirst "." prePart with
                   | None => Num 0
                   | Some rest => parseInt (upTo "." rest)
                   end), st)
      else
        (Exit 1, failedWith ("Invalid prerelease tag: " ++ tag) st)
  end.
Proof.
  unfold tagToVersion. rewrite item_0_split, item_1_split.
  destruct (afterFirst "-" tag) as [suffix|]; cbn [option_map]; [|reflexivity].
  rewrite item_0_split, item_1_split. cbn [isString].
  destruct (String.eqb (upTo "." (upTo "-" suffix)) "pre"); cbn [negb].
  - destruct (afterFirst "." (upTo "-" suffix)); reflexivity.
  - reflexivity.
Qed.

Lemma tagToVersion_no_suffix body st :
  contains "-" body = false ->
  tagToVersion body st
  = (Return (withOrdinal (fieldsOf body) (Num MAX_VALUE)), st).
Proof.
  intros H. rewrite tagToVersion_unfold, upTo_absent by assumption.
  apply afterFirst_absent in H. now rewrite H.
Qed.

Lemma tagToVersion_pre_suffix body st :
  contains "-" body = false ->
  tagToVersion (body ++ "-pre") st
  = (Return (withOrdinal (fieldsOf body) (Num 0)), st).
Proof.
  intros H. change (body ++ "-pre")%string with (body ++ String "-" "pre")%string.
  now rewrite tagToVersion_unfold, afterFirst_append, upTo_append.
Qed.

Lemma tagToVersion_numeral_suffix body K st :
  contains "-" body = false -> 0 <= K ->
  tagToVersion (body ++ "-pre." ++ decimal K) st
  = (Return (withOrdinal (fieldsOf body) (roundDouble K)), st).
Proof.
  intros H HK.
  change (body ++ "-pre." ++ decimal K)%string
    with (body ++ String "-" ("pre" ++ String "." (decimal K)))%string.
  rewrite tagToVersion_unfold, afterFirst_append, upTo_append by assumption.
  cbv zeta.
  assert (Hdash : contains "-" ("pre" ++ String "." (decimal K)) = false)
    by (rewrite contains_append; cbn; apply decimal_no_dash).
  rewrite (upTo_absent "-" _ Hdash), upTo_append, afterFirst_append by reflexivity.
  rewrite upTo_absent by apply decimal_no_dot.
  now rewrite parseInt_numeral.
Qed.

Lemma tagToVersion_ordinal_suffix body K st :
  contains "-" body = false -> small K ->
  tagToVersion (body ++ "-pre." ++ decimal K) st
  = (Return (withOrdinal (fieldsOf body) (Num K)), st).
Proof.
  intros H HK. rewrite tagToVersion_numeral_suffix by (assumption || apply HK).
  now rewrite roundDouble_small.
Qed.

Lemma tripleString_no_dash M N P : contains "-" (tripleString M N P) = false.
Proof.
  unfold tripleString.
  change ("." ++ decimal N ++ "." ++ decimal P)%string
    with (String "." (decimal N ++ String "." (decimal P))).
  rewrite contains_append. cbn [contains]. rewrite contains_append.
  cbn [contains]. now rewrite !decimal_no_dash.
Qed.

Lemma fieldsOf_tripleString M N P :
  small M -> small N -> small P ->
  fieldsOf (tripleString M N P) = (Num M, Num N, Num P).
Proof.
  intros HM HN HP. unfold fieldsOf, tripleString.
  change ("." ++ decimal N ++ "." ++ decimal P)%string
    with (String "." (decimal N ++ String "." (decimal P))).
  rewrite !split_append, split_absent by apply decimal_no_dot.
  cbn [map item nth_error field]. now rewrite !parseInt_decimal.
Qed.

Lemma triple_text_naturals M N P k :
  small M -> small N -> small P ->
  triple_text (new_Version (Num M) (Num N) (Num P) k) = tripleString M N P.
Proof.
  intros HM HN HP. unfold triple_text, tripleString.
  cbn [major minor patch]. now rewrite !toString_natural.
Qed.

Lemma toTag_finalVersion M N P :
  small M -> small N -> small P ->
  toTag (finalVersion M N P) = tripleString M N P.
Proof.
  intros. unfold toTag. rewrite isPreRelease_finalVersion.
  now apply triple_text_naturals.
Qed.

Lemma small_below_MAX_VALUE k : small k -> k < MAX_VALUE.
Proof. intros [_ Hk]. pose proof limit_below_MAX_VALUE. pose proof limit_pos. lia. Qed.

Lemma toTag_preVersion M N P k :
  small M -> small N -> small P -> small k ->
  toTag (preVersion M N P k) =
  if k =? 0 then (tripleString M N P ++ "-pre")%string
  else (tripleString M N P ++ "-pre." ++ decimal k)%string.
Proof.
  intros HM HN HP Hk. unfold toTag. rewrite isPreRelease_preVersion.
  replace (k <? MAX_VALUE) with true
    by (symmetry; apply Z.ltb_lt; now apply small_below_MAX_VALUE).
  unfold preVersion. rewrite triple_text_naturals by assumption.
  cbn [prerelease strict_eq]. destruct (k =? 0); [reflexivity|].
  now rewrite toString_natural by assumption.
Qed.

Lemma wellFormed_cases v :
  wellFormed v = true ->
  exists M N P k,
    small M /\ small N /\ small P
    /\ (v = finalVersion M N P
        \/ v = preVersion M N P k /\ small k).
Proof.
  destruct v as [[M| | | |] [N| | | |] [P| | | |] [k| | | |]];
    unfold wellFormed; cbn [major minor patch prerelease]; try discriminate.
  intros H. apply andb_prop in H as [H Hk]. apply andb_prop in H as [H HP].
  apply andb_prop in H as [HM HN]. apply smallb_small in HM, HN, HP.
  exists M, N, P, k. repeat (split; [assumption|]).
  destruct (Z.eqb_spec k MAX_VALUE) as [->|Hne]; [now left|right].
  split; [reflexivity|]. rewrite orb_false_r in Hk. now apply smallb_small.
Qed.

Lemma tagToVersion_toTag v st :
  wellFormed v = true -> tagToVersion (toTag v) st = (Return v, st).
Proof.
  intros Hv.
  destruct (wellFormed_cases v Hv) as (M & N & P & k & HM & HN & HP & [->|[-> Hk]]).
  - rewrite toTag_finalVersion, tagToVersion_no_suffix, fieldsOf_tripleString
      by auto using tripleString_no_dash.
    reflexivity.
  - rewrite toTag_preVersion by assumption.
    destruct (Z.eqb_spec k 0) as [->|Hk0].
    + rewrite tagToVersion_pre_suffix, fieldsOf_tripleString
        by auto using tripleString_no_dash.
      reflexivity.
    + rewrite tagToVersion_ordinal_suffix, fieldsOf_tripleString
        by (auto using tripleString_no_dash; lia).
      reflexivity.
Qed.

Lemma small_0 : small 0.
Proof. split; [lia|discriminate]. Qed.

(** C3, as stated, fails in both directions.  The tag
    [1.0.0-pre.9007199254740993] has the form [M.N.P-pre.K] with [K] positive,
    and is parsed to the ordinal 2^53 and printed as
    [1.0.0-pre.9007199254740992].  The final release with major 10^21 is
    printed as [1e+21.0.0], which is parsed as the release [1.0.0]. *)
Lemma round_trip_lost_on_large_numbers :
  "1.0.0-pre.9007199254740993"
  = (tripleString 1 0 0 ++ "-pre." ++ decimal 9007199254740993)%string
  /\ tagToVersion "1.0.0-pre.9007199254740993" initial
     = (Return (preVersion 1 0 0 9007199254740992), initial)
  /\ toTag (preVersion 1 0 0 9007199254740992) = "1.0.0-pre.9007199254740992"
  /\ toTag (finalVersion (10 ^ 21) 0 0) = "1e+21.0.0"
  /\ tagToVersion "1e+21.0.0" initial = (Return (finalVersion 1 0 0), initial)
  /\ equals (finalVersion 1 0 0) (finalVersion (10 ^ 21) 0 0) = false.
Proof. repeat split; vm_compute; reflexivity. Qed.

(** C3, amended.  Serialising a version whose components are naturals up to
    2^53 and whose ordinal is a natural up to 2^53 or the marker of final
    releases, and parsing the tag, gives the version back; parsing a tag in the
    serialised format whose numerals are at most 2^53, and serialising the
    version, gives the tag back. *)
Theorem tag_round_trip (v : Version) (t : string) (st : RunState) :
  (wellFormed v = true ->
   tagToVersion (toTag v) st = (Return v, st)
   /\ forall v', tagToVersion (toTag v) st = (Return v', st) -> equals v' v = true)
  /\ (validTag t ->
      exists v', tagToVersion t st = (Return v', st) /\ toTag v' = t).
Proof.
  split.
  - intros Hv. rewrite (tagToVersion_toTag v st Hv). split; [reflexivity|].
    intros v' [= <-]. unfold equals. now rewrite compare_refl.
  - intros [M N P HM HN HP|M N P HM HN HP|M N P K HM HN HP HK].
    + exists (finalVersion M N P).
      rewrite tagToVersion_no_suffix, fieldsOf_tripleString
        by auto using tripleString_no_dash.
      split; [reflexivity|now apply toTag_finalVersion].
    + exists (preVersion M N P 0).
      rewrite tagToVersion_pre_suffix, fieldsOf_tripleString
        by auto using tripleString_no_dash.
      split; [reflexivity|].
      now rewrite toTag_preVersion by auto using small_0.
    + assert (HK' : small K) by (unfold small; lia).
      exists (preVersion M N P K).
      rewrite tagToVersion_ordinal_suffix, fieldsOf_tripleString
        by auto using tripleString_no_dash.
      split; [reflexivity|].
      rewrite toTag_preVersion by assumption.
      destruct (Z.eqb_spec K 0); [lia|reflexivity].
Qed.

Lemma tag_round_trip_witness :
  tagToVersion (toTag (preVersion 1 2 3 4)) initial
    = (Return (preVersion 1 2 3 4), initial)
  /\ exists v', tagToVersion "1.2.3-pre.4" initial = (Return v', initial)
                /\ toTag v' = "1.2.3-pre.4".
Proof.
  destruct (tag_round_trip (preVersion 1 2 3 4) "1.2.3-pre.4" initial)
    as [Hparse Hprint].
  split.
  - apply Hparse. reflexivity.
  - apply Hprint.
    exact (validPrerelease 1 2 3 4 ltac:(in_range) ltac:(in_range)
             ltac:(in_range) ltac:(in_range)).
Defined.

(* ================================================================= *)
(** ** When tag parsing fails *)

Lemma prerelease_withOrdinal t k : prerelease (withOrdinal t k) = k.
Proof. now destruct t as [[M N] P]. Qed.

(** C7, as stated, fails: these two tags carry a suffix that is neither [pre]
    nor [pre.K], and both parse, to ordinal 0 and to ordinal 1. *)
Lemma lenient_suffix_parses :
  afterFirst "-" "0.0.0-pre-beta.1" = Some "pre-beta.1"
  /\ ~ literallyPre "pre-beta.1"
  /\ tagToVersion "0.0.0-pre-beta.1" initial = (Return (preVersion 0 0 0 0), initial)
  /\ afterFirst "-" "0.0.0-pre.1.x" = Some "pre.1.x"
  /\ tagToVersion "0.0.0-pre.1.x" initial = (Return (preVersion 0 0 0 1), initial).
Proof.
  split; [reflexivity|]. split.
  - intros [H|(K & _ & H)]; [discriminate|]. cbn in H. discriminate.
  - repeat split.
Qed.

(** C7, amended.  Parsing fails exactly when the tag has a dash and the text
    between the first dash and the next dash or dot (or the end) is not [pre];
    the failure sets the run as failed and exits with code 1.  A tag without
    dash parses to a final release, the suffix [-pre] to ordinal 0, the suffix
    [-pre.K] to the double nearest to [K], which is [K] up to 2^53; in general
    the ordinal is [parseInt] of the piece after the first dot of the suffix,
    and what follows a second dash or a second dot is ignored. *)
Theorem tagToVersion_failure (tag : string) (st : RunState) :
  ((exists st', tagToVersion tag st = (Exit 1, st')) <->
   (exists suffix, afterFirst "-" tag = Some suffix
                   /\ upTo "." (upTo "-" suffix) <> "pre"))
  /\ (forall suffix, afterFirst "-" tag = Some suffix ->
      upTo "." (upTo "-" suffix) <> "pre" ->
      tagToVersion tag st
      = (Exit 1, failedWith ("Invalid prerelease tag: " ++ tag) st))
  /\ (afterFirst "-" tag = None ->
      exists v, tagToVersion tag st = (Return v, st)
                /\ prerelease v = Num MAX_VALUE /\ isPreRelease v = false)
  /\ (forall suffix, afterFirst "-" tag = Some suffix ->
      upTo "." (upTo "-" suffix) = "pre" ->
      exists v, tagToVersion tag st = (Return v, st)
                /\ prerelease v =
                   match afterFirst "." (upTo "-" suffix) with
                   | None => Num 0
                   | Some rest => parseInt (upTo "." rest)
                   end)
  /\ (forall body K, contains "-" body = false -> 0 <= K ->
      (exists v, tagToVersion (body ++ "-pre") st = (Return v, st)
                 /\ prerelease v = Num 0)
      /\ (exists v, tagToVersion (body ++ "-pre." ++ decimal K) st = (Return v, st)
                    /\ prerelease v = roundDouble K)
      /\ (K <= limit -> roundDouble K = Num K))
  /\ tagToVersion "0.0.0-pre" st = (Return (preVersion 0 0 0 0), st)
  /\ tagToVersion "0.0.0-beta.1" st
     = (Exit 1, failedWith "Invalid prerelease tag: 0.0.0-beta.1" st).
Proof.
  split; [|split; [|split; [|split; [|split; [|split]]]]].
  - rewrite tagToVersion_unfold. split.
    + intros [st' H]. destruct (afterFirst "-" tag) as [suffix|]; [|discriminate].
      exists suffix. split; [reflexivity|]. cbv zeta in H.
      destruct (String.eqb_spec (upTo "." (upTo "-" suffix)) "pre"); [discriminate|assumption].
    + intros (suffix & -> & Hne). cbv zeta.
      apply String.eqb_neq in Hne. rewrite Hne. eauto.
  - intros suffix Hs Hne. rewrite tagToVersion_unfold, Hs. cbv zeta.
    apply String.eqb_neq in Hne. now rewrite Hne.
  - intros Hs. rewrite tagToVersion_unfold, Hs. eexists. split; [reflexivity|].
    unfold isPreRelease. rewrite prerelease_withOrdinal. split; reflexivity.
  - intros suffix Hs He. rewrite tagToVersion_unfold, Hs. cbv zeta.
    apply String.eqb_eq in He. rewrite He. eexists. split; [reflexivity|].
    apply prerelease_withOrdinal.
  - intros body K Hb HK. split; [|split].
    + rewrite tagToVersion_pre_suffix by assumption.
      eexists. split; [reflexivity|apply prerelease_withOrdinal].
    + rewrite tagToVersion_numeral_suffix by assumption.
      eexists. split; [reflexivity|apply prerelease_withOrdinal].
    + intros Hle. apply roundDouble_small. now split.
  - reflexivity.
  - reflexivity.
Qed.

Lemma tagToVersion_failure_witness :
  (exists v, tagToVersion "3.1.4" initial = (Return v, initial)
             /\ prerelease v = Num MAX_VALUE /\ isPreRelease v = false)
  /\ tagToVersion "3.1.4-rc.1" initial
     = (Exit 1, failedWith "Invalid prerelease tag: 3.1.4-rc.1" initial)
  /\ (exists v, tagToVersion ("3.1.4" ++ "-pre." ++ decimal 7) initial
                = (Return v, initial) /\ prerelease v = roundDouble 7)
  /\ roundDouble 7 = Num 7.
Proof.
  split; [|split; [|split]].
  - apply (tagToVersion_failure "3.1.4" initial). reflexivity.
  - destruct (tagToVersion_failure "3.1.4-rc.1" initial) as (_ & Hfail & _).
    apply (Hfail "rc.1"); [reflexivity|discriminate].
  - destruct (tagToVersion_failure EmptyString initial) as (_ & _ & _ & _ & Hok & _).
    apply (Hok "3.1.4" 7); [reflexivity|lia].
  - destruct (tagToVersion_failure EmptyString initial) as (_ & _ & _ & _ & Hok & _).
    apply (Hok "3.1.4" 7); [reflexivity|lia|in_range].
Defined.

(* ================================================================= *)
(** ** Bump action from the labels of the pull request *)

(** The chain of comparisons of the source is the table of the three release
    labels. *)
Lemma labelAction_table name : labelAction name = lookupLabel releaseLabels name.
Proof. reflexivity. Qed.

Lemma filter_notNull names :
  filter notNull (map labelAction names) = map Some (matchingActions names).
Proof.
  induction names as [|name names IH]; [reflexivity|].
  cbn [map filter matchingActions]. rewrite labelAction_table.
  destruct (lookupLabel releaseLabels name); cbn [notNull]; now rewrite IH.
Qed.

Lemma getVersionBumpActionFromPRLabel_first world pr rest st :
  listAssociatedPullRequests world = Data (pr :: rest) ->
  getVersionBumpActionFromPRLabel world st =
  match matchingActions (labels pr) with
  | [] => (Return None, logged "No release labels found on the PR." st)
  | [action] => (Return (Some action), st)
  | _ :: _ :: _ =>
      (Return None, logged "Multiple release labels found on the PR." st)
  end.
Proof.
  intros Hprs. unfold getVersionBumpActionFromPRLabel, bind.
  rewrite Hprs. cbn [request ret]. rewrite filter_notNull.
  destruct (matchingActions (labels pr)) as [|a [|b l]]; reflexivity.
Qed.

Lemma bind_Return {A B} (c : M A) (k : A -> M B) st a st' :
  c st = (Return a, st') -> bind c k st = k a st'.
Proof. intros H. unfold bind. now rewrite H. Qed.

(** C8.  Under the [prlabel] policy only the first associated pull request is
    looked at; its labels are mapped through the three release labels,
    [release:major] to [Major], [release:minor] to [Minor], [release:patch] to
    [Patch] and any other label to nothing; a single match is the action, and
    with no match or several the result is "no action": [release] then sets
    [release_created] to false and returns, without marking the run as failed
    and without asking for a release. *)
Theorem prlabel_resolution (config : Config) (world : World)
    (pr : PullRequest) (rest : list PullRequest) (flag : bool) (st : RunState)
    (Hprs : listAssociatedPullRequests world = Data (pr :: rest))
    (Hpolicy : versionBump config = Member prlabel) :
  getVersionBumpAction config world st =
    match matchingActions (labels pr) with
    | [] => (Return None, logged "No release labels found on the PR." st)
    | [action] => (Return (Some action), st)
    | _ :: _ :: _ =>
        (Return None, logged "Multiple release labels found on the PR." st)
    end
  /\ ((forall action, matchingActions (labels pr) <> [action]) ->
      exists message,
        release config world flag st
        = (Return tt, withOutput "release_created" (OutBool false) (logged message st))
        /\ (releaseMode config
            = Member (if flag then prerelease_mode else release_mode) ->
            promoteFrom config = EmptyString ->
            run config world
            = (Return tt,
               mkRunState None [("release_created", OutBool false)] [message] [])))
  /\ labelAction "release:major" = Some Major
  /\ labelAction "release:minor" = Some Minor
  /\ labelAction "release:patch" = Some Patch
  /\ (forall name, name <> "release:major" -> name <> "release:minor" ->
                   name <> "release:patch" -> labelAction name = None)
  /\ (forall names, filter notNull (map labelAction names)
                    = map Some (matchingActions names)).
Proof.
  assert (Haction : getVersionBumpAction config world st =
                    getVersionBumpActionFromPRLabel world st)
    by (unfold getVersionBumpAction; now rewrite Hpolicy).
  split; [|split; [|split; [reflexivity|split; [reflexivity|split;
    [reflexivity|split; [|exact filter_notNull]]]]]].
  - rewrite Haction. now apply getVersionBumpActionFromPRLabel_first with (rest := rest).
  - intros Hnot.
    assert (Hmsg : exists message, forall s,
      getVersionBumpAction config world s = (Return None, logged message s)).
    { destruct (matchingActions (labels pr)) as [|a [|b l]] eqn:E.
      - exists "No release labels found on the PR.". intros s.
        unfold getVersionBumpAction. rewrite Hpolicy.
        rewrite (getVersionBumpActionFromPRLabel_first world pr rest s Hprs).
        now rewrite E.
      - now destruct (Hnot a).
      - exists "Multiple release labels found on the PR.". intros s.
        unfold getVersionBumpAction. rewrite Hpolicy.
        rewrite (getVersionBumpActionFromPRLabel_first world pr rest s Hprs).
        now rewrite E. }
    destruct Hmsg as [message Hmsg]. exists message.
    assert (Hrelease : forall b s,
      release config world b s
      = (Return tt, withOutput "release_created" (OutBool false) (logged message s))).
    { intros b s. unfold release. now rewrite (bind_Return _ _ _ _ _ (Hmsg s)). }
    split; [apply Hrelease|].
    intros Hmode Hfrom. unfold run, main. rewrite Hmode, Hfrom.
    destruct flag; cbn [negb andb String.eqb]; now rewrite Hrelease.
  - intros name H1 H2 H3. unfold labelAction.
    apply String.eqb_neq in H1, H2, H3. now rewrite H1, H2, H3.
Qed.

Lemma prlabel_resolution_witness :
  getVersionBumpAction prlabelConfig
    exampleWorld initial
  = (Return None, logged "Multiple release labels found on the PR." initial)
  /\ exists message,
       release prlabelConfig
         exampleWorld false initial
       = (Return tt,
          withOutput "release_created" (OutBool false) (logged message initial))
       /\ run prlabelConfig exampleWorld
          = (Return tt,
             mkRunState None [("release_created", OutBool false)] [message] []).
Proof.
  destruct (prlabel_resolution
              prlabelConfig exampleWorld
              (mkPullRequest ["release:minor"; "release:patch"]) [] false initial
              eq_refl eq_refl) as (Haction & Hrun & _).
  split; [exact Haction|].
  destruct Hrun as (message & Hrelease & Hmain); [intros a; discriminate|].
  exists message. split; [exact Hrelease|]. now apply Hmain.
Defined.

(* ================================================================= *)
(** ** Which version the release and promote paths start from *)

Lemma getRepoTags_parsed world tags versions st :
  listRepositoryTags world = Data tags ->
  mapM tagToVersion tags st = (Return versions, st) ->
  getRepoTags world st = (Return versions, st).
Proof.
  intros Htags Hparse. unfold getRepoTags, bind. now rewrite Htags.
Qed.

Lemma Dist_findLatestVersion_prereleases versions :
  Dist.findLatestVersion versions true = findLatestVersion versions true.
Proof.
  unfold Dist.findLatestVersion, findLatestVersion.
  replace (filter (fun version => Bool.eqb (isPreRelease version) true) versions)
    with (filter isPreRelease versions); [reflexivity|].
  apply filter_ext. intros v. now destruct (isPreRelease v).
Qed.

(** C4.  The TypeScript source does not start from the greatest of all the
    parsed tags.  With the tags [1.0.0] and [1.1.0-pre] a patch release starts
    from [1.0.0] although [1.1.0-pre] is greater, and asks for [1.0.1]; the
    bundled [dist/index.js], on the same input, starts from [1.1.0-pre] and
    asks for [1.1.0]. *)
Theorem release_skips_greater_prerelease :
  getRepoTags exampleWorld initial
  = (Return [finalVersion 1 0 0; preVersion 1 1 0 0], initial)
  /\ findLatestVersion [finalVersion 1 0 0; preVersion 1 1 0 0] false
     = Some (finalVersion 1 0 0)
  /\ In (preVersion 1 1 0 0) [finalVersion 1 0 0; preVersion 1 1 0 0]
  /\ greaterThan (preVersion 1 1 0 0) (finalVersion 1 0 0) = true
  /\ requested (snd (run patchConfig exampleWorld)) = [("1.0.1", false)]
  /\ Dist.findLatestVersion [finalVersion 1 0 0; preVersion 1 1 0 0] false
     = Some (preVersion 1 1 0 0)
  /\ requested (snd (DistRun.release patchConfig exampleWorld false initial))
     = [("1.1.0", false)].
Proof. repeat split; now right; left. Qed.

(** X26.  What the TypeScript source does instead: once the bump action is
    known and the tags are parsed to versions with integer fields, [release]
    starts from the greatest of the parsed versions whose finality is the one
    asked for, and asks for the release of its successor; when no parsed
    version has that finality the run is marked as failed. *)
Theorem release_selects_within_target_finality
    (config : Config) (world : World) (flag : bool) (action : VersionBumpAction)
    (tags : list string) (versions : list Version) (st : RunState)
    (Haction : getVersionBumpAction config world st = (Return (Some action), st))
    (Htags : listRepositoryTags world = Data tags)
    (Hparse : mapM tagToVersion tags st = (Return versions, st))
    (Hnum : allNumeric versions) :
  match findLatestVersion versions flag with
  | Some latest =>
      greatestOfFinality flag versions latest
      /\ release config world flag st
         = (newReleaseData <- doRelease world (getNextVersion latest action flag) ;;
            setReleaseOutputs (getNextVersion latest action flag) newReleaseData) st
  | None =>
      (forall w, In w versions -> isPreRelease w = negb flag)
      /\ release config world flag st = setFailed "No releases found." st
  end.
Proof.
  assert (Hrelease : release config world flag st =
    match findLatestVersion versions flag with
    | None => setFailed "No releases found." st
    | Some latest =>
        (newReleaseData <- doRelease world (getNextVersion latest action flag) ;;
         setReleaseOutputs (getNextVersion latest action flag) newReleaseData) st
    end).
  { unfold release. rewrite (bind_Return _ _ _ _ _ Haction).
    rewrite (bind_Return _ _ _ _ _ (getRepoTags_parsed _ _ _ _ Htags Hparse)).
    destruct (findLatestVersion versions flag); reflexivity. }
  destruct (findLatestVersion versions flag) as [latest|] eqn:E.
  - split; [|exact Hrelease].
    now apply findLatestVersion_greatest.
  - split; [|exact Hrelease]. now apply findLatestVersion_none.
Qed.

Lemma release_selects_within_target_finality_witness :
  greatestOfFinality false [finalVersion 1 0 0; preVersion 1 1 0 0]
    (finalVersion 1 0 0)
  /\ release patchConfig
       exampleWorld false initial
     = (newReleaseData <- doRelease exampleWorld
                            (getNextVersion (finalVersion 1 0 0) Patch false) ;;
        setReleaseOutputs (getNextVersion (finalVersion 1 0 0) Patch false)
          newReleaseData) initial.
Proof.
  apply (release_selects_within_target_finality
           patchConfig exampleWorld
           false Patch ["1.0.0"; "1.1.0-pre"]
           [finalVersion 1 0 0; preVersion 1 1 0 0] initial
           eq_refl eq_refl eq_refl).
  repeat constructor.
Defined.






(* ================================================================= *)
(** ** Promotion *)

Lemma decimal_nonempty n : decimal n <> EmptyString.
Proof.
  unfold decimal. pose proof (digits_nonempty n) as H.
  destruct (digits n); [congruence|discriminate].
Qed.

Lemma tripleString_eqb_empty M N P rest :
  String.eqb (tripleString M N P ++ rest) EmptyString = false.
Proof.
  unfold tripleString. pose proof (decimal_nonempty M) as H.
  destruct (decimal M); [congruence|reflexivity].
Qed.

Lemma toTag_eqb_empty M N P k :
  small M -> small N -> small P -> small k ->
  String.eqb (toTag (preVersion M N P k)) EmptyString = false.
Proof.
  intros. rewrite toTag_preVersion by assumption.
  destruct (k =? 0); apply tripleString_eqb_empty.
Qed.

Lemma wellFormed_preVersion M N P k :
  small M -> small N -> small P -> small k ->
  wellFormed (preVersion M N P k) = true.
Proof.
  intros HM HN HP Hk. apply smallb_small in HM, HN, HP, Hk.
  unfold wellFormed. cbn [major minor patch prerelease preVersion].
  now rewrite HM, HN, HP, Hk.
Qed.

(** C5.  Promotion of a prerelease [M.N.P-pre.k] is the transition
    ([Patch], final) and yields the final release [M.N.P], whatever the triple
    and the ordinal; [promote], given the tag of that prerelease (numbers up to
    2^53, which a tag can carry) and a release object flagged as prerelease for
    it, asks for the release [M.N.P]; nothing in [promote] depends on the
    [version_bump] policy. *)
Theorem promotion_keeps_triple (M N P k : Z) (config : Config) (world : World)
    (found created : Release) (st : RunState)
    (HP : 0 <= P) (Hk : k < MAX_VALUE) :
  getNextVersion (preVersion M N P k) Patch false = finalVersion M N P
  /\ (small M -> small N -> small P -> small k ->
      promoteFrom config = toTag (preVersion M N P k) ->
      getReleaseByTag world (toTag (preVersion M N P k)) = Data (Some found) ->
      tag_name found = toTag (preVersion M N P k) ->
      release_prerelease found = true ->
      createRelease world (tripleString M N P) false = Data created ->
      promote config world st
      = setReleaseOutputs (finalVersion M N P) created
          (requesting (tripleString M N P) false st))
  /\ (forall policy,
      promote (mkConfig policy (releaseMode config) (promoteFrom config)
                 (releaseModeInput config)) world st
      = promote config world st).
Proof.
  assert (Hnext := promotion_transition M N P k HP Hk).
  split; [exact Hnext|]. split; [|reflexivity].
  intros HM HN HP' Hk' Hfrom Hfound Htag Hflag Hcreated.
  assert (Hparse := fun s =>
    tagToVersion_toTag (preVersion M N P k) s
      (wellFormed_preVersion M N P k HM HN HP' Hk')).
  assert (Htarget : promoteTarget config world st
                    = (Return (Some (preVersion M N P k)), st)).
  { unfold promoteTarget. rewrite Hfrom, toTag_eqb_empty by assumption.
    now rewrite (bind_Return _ _ _ _ _ (Hparse st)). }
  unfold promote. rewrite (bind_Return _ _ _ _ _ Htarget).
  assert (Hget : getReleaseFromTag world (toTag (preVersion M N P k)) st
                 = (Return (Some found), st))
    by (unfold getReleaseFromTag; now rewrite Hfound).
  rewrite (bind_Return _ _ _ _ _ Hget), Hflag. cbn [negb].
  rewrite Htag, (bind_Return _ _ _ _ _ (Hparse st)), Hnext.
  assert (Hdo : doRelease world (finalVersion M N P) st
                = (Return created, requesting (tripleString M N P) false st)).
  { unfold doRelease.
    rewrite toTag_finalVersion, isPreRelease_finalVersion, Hcreated by assumption.
    reflexivity. }
  now rewrite (bind_Return _ _ _ _ _ Hdo).
Qed.

Lemma promotion_keeps_triple_witness :
  getNextVersion (preVersion 2 0 0 1) Patch false = finalVersion 2 0 0
  /\ requested (snd (promote (mkConfig (Member major_bump) (Member promote_mode)
                                "2.0.0-pre.1" "promote") exampleWorld initial))
     = [("2.0.0", false)].
Proof.
  destruct (promotion_keeps_triple 2 0 0 1
              (mkConfig (Member major_bump) (Member promote_mode) "2.0.0-pre.1"
                 "promote")
              exampleWorld (exampleRelease "2.0.0-pre.1" true)
              (exampleRelease "2.0.0" false) initial
              ltac:(lia) eq_refl)
    as (Hnext & Hpromote & _).
  split; [exact Hnext|].
  rewrite Hpromote; first [reflexivity | in_range].
Defined.

(* ================================================================= *)
(** ** The scenarios of the specification, evaluated *)

Example split_pieces :
  split "-" "1.2.3-pre.4" = ["1.2.3"; "pre.4"] /\ split "." EmptyString = [EmptyString].
Proof. split; reflexivity. Qed.

Example parseInt_samples :
  parseInt "12" = Num 12 /\ parseInt " +7up" = Num 7 /\ parseInt "x" = NaN
  /\ parseInt "0x1f" = Num 31
  /\ parseInt (String (ascii_of_nat 160) "42") = Num 42
  /\ parseInt "9007199254740993" = Num 9007199254740992
  /\ parseInt "9007199254740995" = Num 9007199254740996.
Proof. repeat split; vm_compute; reflexivity. Qed.

Example toString_samples :
  toString (Num 1203) = "1203" /\ toString (Num 0) = "0"
  /\ toString Undefined = "undefined"
  /\ toString (Num (2 ^ 60)) = "1152921504606847000"
  /\ toString (Num (10 ^ 21)) = "1e+21"
  /\ toString (Num (15 * 10 ^ 20)) = "1.5e+21"
  /\ toString (Num MAX_VALUE) = "1.7976931348623157e+308".
Proof. repeat split; vm_compute; reflexivity. Qed.

Example succ_samples :
  succ (Num 41) = Num 42
  /\ succ (Num 9007199254740991) = Num 9007199254740992
  /\ succ (Num 9007199254740992) = Num 9007199254740992
  /\ succ (Num 9007199254740994) = Num 9007199254740996
  /\ succ (Num MAX_VALUE) = Num MAX_VALUE
  /\ succ Undefined = NaN.
Proof. repeat split; vm_compute; reflexivity. Qed.

Example roundDouble_samples :
  roundDouble 9007199254740993 = Num 9007199254740992
  /\ roundDouble (-9007199254740995) = Num (-9007199254740996)
  /\ roundDouble MAX_VALUE = Num MAX_VALUE
  /\ roundDouble (2 ^ 1024 - 2 ^ 970 - 1) = Num MAX_VALUE
  /\ roundDouble (2 ^ 1024 - 2 ^ 970) = Infinity.
Proof. repeat split; vm_compute; reflexivity. Qed.

Example toTag_samples :
  toTag (finalVersion 1 2 3) = "1.2.3" /\ toTag (preVersion 1 2 3 0) = "1.2.3-pre"
  /\ toTag (preVersion 1 2 3 4) = "1.2.3-pre.4"
  /\ toPublishVersion (preVersion 1 2 3 4) = "1.2.3-SNAPSHOT".
Proof. repeat split. Qed.

Example transition_samples :
  getNextVersion (preVersion 1 0 0 0) Major false = finalVersion 1 0 0
  /\ getNextVersion (finalVersion 1 2 3) Minor false = finalVersion 1 3 0
  /\ getNextVersion (preVersion 1 2 3 2) Patch true = preVersion 1 2 3 3
  /\ getNextVersion (finalVersion 1 2 0) Patch true = preVersion 1 2 1 0.
Proof. repeat split. Qed.

(** Tags [1.0.0], [1.1.0], [1.1.0-pre.0], a major release: [2.0.0]. *)
Example release_scenario :
  run (mkConfig (Member major_bump) (Member release_mode) EmptyString "release")
      (mkWorld (Data []) (Data ["1.0.0"; "1.1.0"; "1.1.0-pre.0"])
         (fun tag => Rejected "Not Found")
         (fun tag pre => Data (exampleRelease tag pre)))
  = (Return tt,
     mkRunState None
       [("release_created", OutBool true); ("tag_name", OutString "2.0.0");
        ("prerelease", OutBool false); ("body", OutMissing);
        ("publish_version", OutString "2.0.0");
        ("release_type", OutString "release")]
       [] [("2.0.0", false)]).
Proof. reflexivity. Qed.

(** A prerelease asked for on a history with final releases only finds
    nothing to start from. *)
Example prerelease_scenario :
  run (mkConfig (Member minor_bump) (Member prerelease_mode) EmptyString "prerelease")
      (mkWorld (Data []) (Data ["1.0.0"; "1.1.0"])
         (fun tag => Rejected "Not Found")
         (fun tag pre => Data (exampleRelease tag pre)))
  = (Return tt, mkRunState (Some "No releases found.") [] [] []).
Proof. reflexivity. Qed.

(* ================================================================= *)
(** ** More on the transition engine *)

Lemma next_atLeast M N P k X p :
  0 <= P ->
  exists M1 N1 P1 k1,
    getNextVersion (preVersion M N P k) X p = preVersion M1 N1 P1 k1
    /\ atLeast X (preVersion M1 N1 P1 k1) = true
    /\ 0 <= P1
    /\ (p = true -> k1 = 0 \/ (k < MAX_VALUE /\ k1 = addOne k)).
Proof.
  intros HP. pose proof (addOne_ge P) as HP1.
  unfold getNextVersion, bumpFromPrereleaseToPrerelease,
    bumpFromPrereleaseToRelease, bumpFromReleaseToPrerelease,
    bumpFromReleaseToRelease, final_Version.
  rewrite isPreRelease_preVersion.
  destruct (Z.ltb_spec k MAX_VALUE) as [Hk|Hk], p, X;
    repeat match goal with
           | |- context [if ?c then _ else _] => destruct c
           end;
    cbn [major minor patch prerelease preVersion succ];
    do 4 eexists; (split; [reflexivity|]);
    (split;
     [first [ reflexivity
            | unfold atLeast, isAtLeastMinorRelease, isMajorRelease,
                isMinorRelease; cbn; now rewrite ?orb_true_r
            | apply atLeast_Patch; lia ]|]);
    (split; [lia|]); intros Hp;
    first [discriminate | now left | right; now split].
Qed.

Lemma atLeast_step M N P k X :
  k < MAX_VALUE -> atLeast X (preVersion M N P k) = true ->
  getNextVersion (preVersion M N P k) X true = preVersion M N P (addOne k)
  /\ getNextVersion (preVersion M N P k) X false = finalVersion M N P.
Proof.
  intros Hk Hat. unfold getNextVersion. rewrite isPreRelease_preVersion.
  apply Z.ltb_lt in Hk as ->.
  destruct X; cbn [bumpFromPrereleaseToPrerelease bumpFromPrereleaseToRelease];
    cbn [atLeast] in Hat; rewrite Hat.
  - change (atLeast Major (preVersion M N P k) = true) in Hat.
    rewrite atLeast_Major in Hat. apply andb_prop in Hat as [HN HP].
    apply Z.eqb_eq in HN, HP. subst. split; reflexivity.
  - change (atLeast Minor (preVersion M N P k) = true) in Hat.
    rewrite atLeast_Minor in Hat. apply Z.eqb_eq in Hat. subst. split; reflexivity.
  - split; reflexivity.
Qed.

(** X2.  A prerelease bump with action [X] leaves a version that is at least
    an [X] release: asking for [X] again advances the ordinal of the same
    triple by one, and a release with [X] finalises that triple, so that no
    component is bumped twice.  The ordinal of a prerelease that is advanced
    twice is taken between -2^53 and 2^53 - 2, where both increments are
    exact. *)
Theorem same_action_continues_line (M N P k : Z) (X : VersionBumpAction)
    (HP : 0 <= P) (Hroom : k < MAX_VALUE -> - limit <= k /\ k + 1 < limit) :
  exists M1 N1 P1 k1,
    getNextVersion (preVersion M N P k) X true = preVersion M1 N1 P1 k1
    /\ isPreRelease (preVersion M1 N1 P1 k1) = true
    /\ getNextVersion (preVersion M1 N1 P1 k1) X true = preVersion M1 N1 P1 (k1 + 1)
    /\ getNextVersion (preVersion M1 N1 P1 k1) X false = finalVersion M1 N1 P1.
Proof.
  destruct (next_atLeast M N P k X true HP)
    as (M1 & N1 & P1 & k1 & Hnext & Hat & _ & Hk1).
  assert (Hexact : exact k1).
  { pose proof limit_pos. destruct (Hk1 eq_refl) as [->|[Hk ->]].
    - unfold exact. lia.
    - destruct (Hroom Hk) as [Hlo Hhi].
      rewrite addOne_exact; unfold exact; lia. }
  assert (Hlt : k1 < MAX_VALUE).
  { pose proof limit_below_MAX_VALUE. pose proof limit_pos.
    unfold exact in Hexact. lia. }
  exists M1, N1, P1, k1. split; [exact Hnext|].
  split; [rewrite isPreRelease_preVersion; now apply Z.ltb_lt|].
  rewrite <- (addOne_exact k1 Hexact). now apply atLeast_step.
Qed.

Lemma same_action_continues_line_witness :
  exists M1 N1 P1 k1,
    getNextVersion (preVersion 1 2 3 5) Minor true = preVersion M1 N1 P1 k1
    /\ isPreRelease (preVersion M1 N1 P1 k1) = true
    /\ getNextVersion (preVersion M1 N1 P1 k1) Minor true
       = preVersion M1 N1 P1 (k1 + 1)
    /\ getNextVersion (preVersion M1 N1 P1 k1) Minor false = finalVersion M1 N1 P1.
Proof.
  apply (same_action_continues_line 1 2 3 5 Minor); [lia|intros _; in_range].
Defined.

(** X3.  On the same version and for the same target a major bump is never
    below a minor bump, nor a minor bump below a patch bump, as long as the
    major and the minor lie between -2^53 and 2^53 - 1. *)
Theorem stronger_action_not_lower (M N P k : Z) (p : bool)
    (HM : exact M) (HN : exact N) :
  compare (getNextVersion (preVersion M N P k) Minor p)
          (getNextVersion (preVersion M N P k) Major p) <= 0
  /\ compare (getNextVersion (preVersion M N P k) Patch p)
             (getNextVersion (preVersion M N P k) Minor p) <= 0.
Proof.
  unfold getNextVersion. rewrite isPreRelease_preVersion.
  destruct (Z.ltb_spec k MAX_VALUE), p; engine_cases; engine_tests;
    rewrite ?(addOne_exact _ HM), ?(addOne_exact _ HN);
    unfold compare; cbn; rewrite ?Z.gtb_ltb; split; ltb_cases; lia.
Qed.

Lemma stronger_action_not_lower_witness :
  compare (getNextVersion (finalVersion 1 2 3) Minor false)
          (getNextVersion (finalVersion 1 2 3) Major false) <= 0
  /\ compare (getNextVersion (finalVersion 1 2 3) Patch false)
             (getNextVersion (finalVersion 1 2 3) Minor false) <= 0.
Proof.
  apply (stronger_action_not_lower 1 2 3 MAX_VALUE false); in_range.
Defined.

Lemma wellFormed_intro M N P k :
  small M -> small N -> small P -> small k \/ k = MAX_VALUE ->
  wellFormed (preVersion M N P k) = true.
Proof.
  intros HM HN HP Hk. apply smallb_small in HM, HN, HP.
  unfold wellFormed. cbn [major minor patch prerelease preVersion].
  rewrite HM, HN, HP. destruct Hk as [Hk| ->].
  - apply smallb_small in Hk. now rewrite Hk.
  - rewrite Z.eqb_refl. now rewrite orb_true_r.
Qed.

Lemma wellFormed_elim v :
  wellFormed v = true ->
  exists M N P k,
    v = preVersion M N P k /\ small M /\ small N /\ small P
    /\ (small k \/ k = MAX_VALUE).
Proof.
  intros Hv.
  destruct (wellFormed_cases v Hv) as (M & N & P & k & HM & HN & HP & [->|[-> Hk]]).
  - exists M, N, P, MAX_VALUE. repeat (split; [assumption || reflexivity|]).
    now right.
  - exists M, N, P, k. repeat (split; [assumption || reflexivity|]). now left.
Qed.

Lemma next_wellFormed v X p :
  wellFormed v = true -> wellFormed (getNextVersion v X p) = true.
Proof.
  intros Hv.
  destruct (wellFormed_elim v Hv) as (M & N & P & k & -> & HM & HN & HP & Hk).
  pose proof small_0 as H0.
  pose proof (addOne_small M HM). pose proof (addOne_small N HN).
  pose proof (addOne_small P HP).
  assert (Hk' : k < MAX_VALUE -> small (addOne k)).
  { intros Hlt. destruct Hk as [Hk| ->]; [now apply addOne_small|lia]. }
  unfold getNextVersion. rewrite isPreRelease_preVersion.
  destruct (Z.ltb_spec k MAX_VALUE), p, X; engine_cases; engine_tests;
    apply wellFormed_intro; auto.
Qed.

(** X4.  The engine keeps versions well formed (components up to 2^53, ordinal
    up to 2^53 or the marker of final releases), and the tag it asks for reads
    back as the version it computed. *)
Theorem next_tag_reads_back (v : Version) (X : VersionBumpAction) (p : bool)
    (st : RunState) (Hv : wellFormed v = true) :
  wellFormed (getNextVersion v X p) = true
  /\ tagToVersion (toTag (getNextVersion v X p)) st
     = (Return (getNextVersion v X p), st).
Proof.
  assert (H := next_wellFormed v X p Hv).
  split; [exact H|]. now apply tagToVersion_toTag.
Qed.

Lemma next_tag_reads_back_witness :
  wellFormed (getNextVersion (preVersion 1 9 0 3) Major true) = true
  /\ tagToVersion (toTag (getNextVersion (preVersion 1 9 0 3) Major true)) initial
     = (Return (getNextVersion (preVersion 1 9 0 3) Major true), initial).
Proof.
  apply (next_tag_reads_back (preVersion 1 9 0 3) Major true initial).
  reflexivity.
Defined.

(* ================================================================= *)
(** ** The comparison predicates, tags and publish versions *)

Lemma compare_zero_numeric a b :
  numeric a = true -> numeric b = true -> compare a b = 0 -> a = b.
Proof.
  intros Ha Hb H.
  destruct (numeric_preVersion a Ha) as (M1 & N1 & P1 & k1 & ->).
  destruct (numeric_preVersion b Hb) as (M2 & N2 & P2 & k2 & ->).
  assert (H1 : compare (preVersion M1 N1 P1 k1) (preVersion M2 N2 P2 k2) <= 0) by lia.
  assert (H2 : compare (preVersion M2 N2 P2 k2) (preVersion M1 N1 P1 k1) <= 0)
    by (rewrite compare_antisym; lia).
  apply compare_le_iff in H1, H2.
  unfold preVersion. repeat f_equal; lia.
Qed.

(** X5.  Of [greaterThan], [lessThan] and [equals] exactly one holds for any
    two versions; [greaterThan] is [lessThan] with the arguments exchanged and
    [equals] is symmetric.  On integer fields [equals] is equality, while a
    field that is not a number compares equal to anything. *)
Theorem comparison_predicates (a b : Version) :
  ((greaterThan a b = true /\ lessThan a b = false /\ equals a b = false)
   \/ (greaterThan a b = false /\ lessThan a b = true /\ equals a b = false)
   \/ (greaterThan a b = false /\ lessThan a b = false /\ equals a b = true))
  /\ greaterThan a b = lessThan b a
  /\ equals a b = equals b a
  /\ (numeric a = true -> numeric b = true -> (equals a b = true <-> a = b))
  /\ equals (new_Version NaN (Num 1) (Num 0) (Num 0)) (preVersion 7 1 0 0) = true.
Proof.
  unfold greaterThan, lessThan, equals.
  split; [|split; [|split; [|split]]].
  - destruct (compare_range a b) as [H|[H|H]]; rewrite H; cbn; tauto.
  - rewrite (compare_antisym b a).
    destruct (compare_range a b) as [H|[H|H]]; rewrite H; reflexivity.
  - rewrite (compare_antisym b a).
    destruct (compare_range a b) as [H|[H|H]]; rewrite H; reflexivity.
  - intros Ha Hb. rewrite Z.eqb_eq. split.
    + now apply compare_zero_numeric.
    + intros ->. apply compare_refl.
  - reflexivity.
Qed.

Lemma comparison_predicates_witness :
  equals (preVersion 1 2 3 4) (preVersion 1 2 3 4) = true
  <-> preVersion 1 2 3 4 = preVersion 1 2 3 4.
Proof.
  destruct (comparison_predicates (preVersion 1 2 3 4) (preVersion 1 2 3 4))
    as (_ & _ & _ & H & _).
  apply H; reflexivity.
Defined.

(** X6.  Two well-formed versions with the same tag are the same version. *)
Theorem toTag_injective (v w : Version)
    (Hv : wellFormed v = true) (Hw : wellFormed w = true)
    (Htag : toTag v = toTag w) :
  v = w.
Proof.
  pose proof (tagToVersion_toTag v initial Hv) as H1.
  pose proof (tagToVersion_toTag w initial Hw) as H2.
  rewrite Htag, H2 in H1. now injection H1.
Qed.

Lemma toTag_injective_witness : preVersion 1 2 3 0 = preVersion 1 2 3 0.
Proof.
  apply (toTag_injective (preVersion 1 2 3 0) (preVersion 1 2 3 0));
    reflexivity.
Defined.

Lemma append_empty_r (s : string) : (s ++ EmptyString)%string = s.
Proof. induction s as [|c s IH]; cbn; [reflexivity|now rewrite IH]. Qed.

Lemma triple_text_no_dash v :
  plainTriple v = true -> contains "-" (triple_text v) = false.
Proof.
  unfold plainTriple, triple_text. intros H.
  apply andb_prop in H as [H HP]. apply andb_prop in H as [HM HN].
  change ("." ++ toString (minor v) ++ "." ++ toString (patch v))%string
    with (String "." (toString (minor v) ++ String "." (toString (patch v)))).
  rewrite contains_append. cbn [contains]. rewrite contains_append.
  cbn [contains]. now rewrite !toString_no_dash by assumption.
Qed.

(** X7.  The publish version of a version with no negative component is its
    tag with the suffix [-pre] or [-pre.K] replaced by [-SNAPSHOT]: the part
    of the tag before the dash, followed by [-SNAPSHOT] for a prerelease and
    by nothing for a final release. *)
Theorem toPublishVersion_of_tag (v : Version) (Hv : plainTriple v = true) :
  toPublishVersion v
  = (upTo "-" (toTag v)
     ++ if isPreRelease v then "-SNAPSHOT" else EmptyString)%string.
Proof.
  pose proof (triple_text_no_dash v Hv) as Hdash.
  unfold toPublishVersion, toTag. destruct (isPreRelease v).
  - destruct (strict_eq (prerelease v) (Num 0)).
    + change (triple_text v ++ "-pre")%string
        with (triple_text v ++ String "-" "pre")%string.
      now rewrite upTo_append.
    + change (triple_text v ++ "-pre." ++ toString (prerelease v))%string
        with (triple_text v
              ++ String "-" ("pre." ++ toString (prerelease v)))%string.
      now rewrite upTo_append.
  - now rewrite upTo_absent, append_empty_r.
Qed.

Lemma toPublishVersion_of_tag_witness :
  toPublishVersion (preVersion 1 2 3 4)
  = (upTo "-" (toTag (preVersion 1 2 3 4))
     ++ if isPreRelease (preVersion 1 2 3 4) then "-SNAPSHOT" else EmptyString)%string.
Proof.
  apply (toPublishVersion_of_tag (preVersion 1 2 3 4)). reflexivity.
Defined.

(** X8.  Advancing a prerelease line leaves the publish version unchanged:
    when the prerelease is already at least an [X] release, the prerelease
    that follows it has the same [-SNAPSHOT] version. *)
Theorem snapshot_stable_along_line (M N P k : Z) (X : VersionBumpAction)
    (Hk : k + 1 < MAX_VALUE)
    (Hat : atLeast X (preVersion M N P k) = true) :
  toPublishVersion (getNextVersion (preVersion M N P k) X true)
  = toPublishVersion (preVersion M N P k).
Proof.
  destruct (atLeast_step M N P k X ltac:(lia) Hat) as [-> _].
  unfold toPublishVersion. rewrite !isPreRelease_preVersion.
  replace (k <? MAX_VALUE) with true by (symmetry; apply Z.ltb_lt; lia).
  replace (addOne k <? MAX_VALUE) with true
    by (symmetry; now apply Z.ltb_lt, addOne_room).
  reflexivity.
Qed.

Lemma snapshot_stable_along_line_witness :
  toPublishVersion (getNextVersion (preVersion 1 2 0 4) Minor true)
  = toPublishVersion (preVersion 1 2 0 4).
Proof.
  apply (snapshot_stable_along_line 1 2 0 4 Minor); reflexivity.
Defined.

(* ================================================================= *)
(** ** More on the selection of the latest version *)

Lemma reduce_member (rest : list Version) :
  forall first, In (fold_left pick rest first) (first :: rest).
Proof.
  induction rest as [|c rest IH]; intros first; cbn; [now left|].
  destruct (IH (pick first c)) as [H|H]; [|now right; right].
  rewrite <- H. destruct (pick_cases first c) as [[-> _]|[-> _]];
    [now left|now right; left].
Qed.

Lemma findLatestVersion_some_iff versions flag :
  (exists latest, findLatestVersion versions flag = Some latest)
  <-> exists w, In w versions /\ isPreRelease w = flag.
Proof.
  unfold findLatestVersion.
  set (keep := fun version => Bool.eqb (isPreRelease version) flag).
  destruct (filter keep versions) as [|first rest] eqn:Hf.
  - split; [intros [? [=]]|]. intros (w & Hw & Hflag).
    assert (Hin : In w []).
    { rewrite <- Hf. apply filter_In. split; [assumption|].
      unfold keep. rewrite Hflag. apply eqb_reflx. }
    destruct Hin.
  - split; [|eauto]. intros _. exists first.
    assert (Hin : In first (filter keep versions)) by (rewrite Hf; now left).
    apply filter_In in Hin as [Hin Hkeep]. split; [assumption|now apply eqb_prop].
Qed.

(** X9.  Whatever the versions (well formed or not), [findLatestVersion]
    returns one of the versions of the list that has the finality asked for,
    and returns nothing exactly when the list has none: on the empty list, and
    on a list whose versions all have the other finality. *)
Theorem findLatestVersion_member (versions : list Version) (flag : bool) :
  (forall latest, findLatestVersion versions flag = Some latest ->
                  In latest versions /\ isPreRelease latest = flag)
  /\ (findLatestVersion versions flag = None <->
      forall w, In w versions -> isPreRelease w = negb flag)
  /\ findLatestVersion [] flag = None.
Proof.
  split; [|split; [|reflexivity]].
  - unfold findLatestVersion.
    set (keep := fun version => Bool.eqb (isPreRelease version) flag).
    destruct (filter keep versions) as [|first rest] eqn:Hf; [discriminate|].
    intros latest [= <-]. fold pick.
    assert (Hin : In (fold_left pick rest first) (filter keep versions))
      by (rewrite Hf; apply reduce_member).
    apply filter_In in Hin as [Hin Hkeep]. split; [assumption|now apply eqb_prop].
  - split; [apply findLatestVersion_none|].
    intros Hall. destruct (findLatestVersion versions flag) as [latest|] eqn:E;
      [|reflexivity].
    assert (Hex : exists w, In w versions /\ isPreRelease w = flag)
      by (apply findLatestVersion_some_iff; eauto).
    destruct Hex as (w & Hw & Hflag). rewrite (Hall w Hw) in Hflag.
    now destruct flag.
Qed.

Lemma findLatestVersion_member_witness :
  findLatestVersion [finalVersion 1 0 0; finalVersion 1 1 0] true = None.
Proof.
  destruct (findLatestVersion_member [finalVersion 1 0 0; finalVersion 1 1 0] true)
    as (_ & [_ H] & _).
  apply H. intros w [E|[E|[]]]; rewrite <- E; reflexivity.
Defined.

Lemma allNumeric_Permutation vs vs' :
  Permutation vs vs' -> allNumeric vs -> allNumeric vs'.
Proof.
  intros Hperm Hnum. unfold allNumeric in *. rewrite Forall_forall in *.
  intros w Hw. apply Hnum. eapply Permutation_in; [apply Permutation_sym|]; eauto.
Qed.

(** X10.  On versions with integer fields the selection does not depend on
    the order in which the tags are listed. *)
Theorem findLatestVersion_order_independent (vs vs' : list Version) (flag : bool)
    (Hperm : Permutation vs vs') (Hnum : allNumeric vs) :
  findLatestVersion vs flag = findLatestVersion vs' flag.
Proof.
  assert (Hnum' := allNumeric_Permutation vs vs' Hperm Hnum).
  destruct (findLatestVersion vs flag) as [a|] eqn:Ea;
    destruct (findLatestVersion vs' flag) as [b|] eqn:Eb; [| | |reflexivity].
  - destruct (findLatestVersion_greatest vs flag a Hnum Ea) as (Ha & Hfa & Hmaxa).
    destruct (findLatestVersion_greatest vs' flag b Hnum' Eb) as (Hb & Hfb & Hmaxb).
    assert (Hab : compare a b <= 0)
      by (apply Hmaxb; [eapply Permutation_in; eauto|assumption]).
    assert (Hba : compare b a <= 0)
      by (apply Hmaxa; [eapply Permutation_in; [apply Permutation_sym|]; eauto
                       |assumption]).
    f_equal. apply compare_zero_numeric.
    + unfold allNumeric in Hnum. rewrite Forall_forall in Hnum. now apply Hnum.
    + unfold allNumeric in Hnum'. rewrite Forall_forall in Hnum'. now apply Hnum'.
    + rewrite compare_antisym in Hba. lia.
  - destruct (findLatestVersion_greatest vs flag a Hnum Ea) as (Ha & Hfa & _).
    pose proof (findLatestVersion_none vs' flag Eb a
                  (Permutation_in a Hperm Ha)) as H.
    rewrite Hfa in H. now destruct flag.
  - destruct (findLatestVersion_greatest vs' flag b Hnum' Eb) as (Hb & Hfb & _).
    pose proof (findLatestVersion_none vs flag Ea b
                  (Permutation_in b (Permutation_sym Hperm) Hb)) as H.
    rewrite Hfb in H. now destruct flag.
Qed.

Lemma findLatestVersion_order_independent_witness :
  findLatestVersion [finalVersion 1 0 0; finalVersion 1 1 0] false
  = findLatestVersion [finalVersion 1 1 0; finalVersion 1 0 0] false.
Proof.
  apply findLatestVersion_order_independent.
  - apply perm_swap.
  - repeat constructor.
Defined.

(** X11.  [findLatestVersion] of [dist/index.js]: with its default argument
    it returns the greatest of all the versions, and nothing on the empty list
    only; with [prereleaseOnly] it returns the greatest of the prereleases,
    and then agrees with the TypeScript source asked for prereleases. *)
Theorem Dist_findLatestVersion_selection (versions : list Version)
    (Hnum : allNumeric versions) :
  (forall latest, Dist.findLatestVersion versions false = Some latest ->
                  In latest versions
                  /\ forall w, In w versions -> compare w latest <= 0)
  /\ (Dist.findLatestVersion versions false = None <-> versions = [])
  /\ Dist.findLatestVersion versions true = findLatestVersion versions true
  /\ (forall latest, Dist.findLatestVersion versions true = Some latest ->
                     greatestOfFinality true versions latest).
Proof.
  assert (Hsame : Dist.findLatestVersion versions true
                  = findLatestVersion versions true).
  { unfold Dist.findLatestVersion, findLatestVersion.
    replace (filter (fun version => Bool.eqb (isPreRelease version) true) versions)
      with (filter isPreRelease versions); [reflexivity|].
    apply filter_ext. intros v. now destruct (isPreRelease v). }
  split; [|split; [|split; [exact Hsame|]]].
  - intros latest H. unfold Dist.findLatestVersion in H.
    destruct versions as [|first rest]; [discriminate|].
    injection H as <-. exact (reduce_greatest rest first Hnum).
  - unfold Dist.findLatestVersion. destruct versions; split; congruence.
  - intros latest H. rewrite Hsame in H.
    now apply findLatestVersion_greatest.
Qed.

Lemma Dist_findLatestVersion_selection_witness :
  Dist.findLatestVersion [finalVersion 1 0 0; preVersion 1 1 0 0] true
  = findLatestVersion [finalVersion 1 0 0; preVersion 1 1 0 0] true.
Proof.
  apply (Dist_findLatestVersion_selection
           [finalVersion 1 0 0; preVersion 1 1 0 0]).
  repeat constructor.
Defined.

(* ================================================================= *)
(** ** Reading the history: one bad tag stops the run *)

Lemma tagToVersion_accepts tag st :
  rejects tag = false -> exists v, tagToVersion tag st = (Return v, st).
Proof.
  unfold rejects. rewrite tagToVersion_unfold.
  destruct (afterFirst "-" tag) as [suffix|]; [|eauto]. cbv zeta.
  destruct (String.eqb (upTo "." (upTo "-" suffix)) "pre"); [eauto|discriminate].
Qed.

Lemma tagToVersion_rejects tag st :
  rejects tag = true ->
  tagToVersion tag st = (Exit 1, failedWith (invalidTag tag) st).
Proof.
  unfold rejects. rewrite tagToVersion_unfold.
  destruct (afterFirst "-" tag) as [suffix|]; [|discriminate]. cbv zeta.
  destruct (String.eqb (upTo "." (upTo "-" suffix)) "pre"); [discriminate|reflexivity].
Qed.

Lemma mapM_accepts tags st :
  existsb rejects tags = false ->
  exists versions,
    mapM tagToVersion tags st = (Return versions, st)
    /\ List.length versions = List.length tags.
Proof.
  induction tags as [|tag tags IH]; cbn [existsb mapM]; intros H.
  - exists []. split; reflexivity.
  - apply orb_false_elim in H as [Htag Htags].
    destruct (tagToVersion_accepts tag st Htag) as [v Hv].
    destruct (IH Htags) as (versions & Hvs & Hlen).
    exists (v :: versions). split; [|cbn; now rewrite Hlen].
    rewrite (bind_Return _ _ _ _ _ Hv), (bind_Return _ _ _ _ _ Hvs). reflexivity.
Qed.

Lemma mapM_rejects good bad rest st :
  existsb rejects good = false -> rejects bad = true ->
  mapM tagToVersion (good ++ bad :: rest)%list st
  = (Exit 1, failedWith (invalidTag bad) st).
Proof.
  induction good as [|tag good IH]; cbn [existsb mapM app]; intros H Hbad.
  - unfold bind. now rewrite tagToVersion_rejects.
  - apply orb_false_elim in H as [Htag Hgood].
    destruct (tagToVersion_accepts tag st Htag) as [v Hv].
    rewrite (bind_Return _ _ _ _ _ Hv). unfold bind at 1.
    now rewrite (IH Hgood Hbad).
Qed.

(** X12.  The tags are parsed all or nothing: when none is rejected there is
    one version per tag and the state is untouched; otherwise the first
    rejected tag marks the run as failed with its name and exits with code 1,
    whatever the other tags are, and a release run stops there. *)
Theorem getRepoTags_all_or_nothing (config : Config) (world : World)
    (tags : list string) (st : RunState)
    (Htags : listRepositoryTags world = Data tags) :
  (existsb rejects tags = false ->
   exists versions,
     getRepoTags world st = (Return versions, st)
     /\ List.length versions = List.length tags)
  /\ (forall good bad rest,
        tags = (good ++ bad :: rest)%list ->
        existsb rejects good = false -> rejects bad = true ->
        getRepoTags world st = (Exit 1, failedWith (invalidTag bad) st)
        /\ forall flag action,
             getVersionBumpAction config world st = (Return (Some action), st) ->
             release config world flag st
             = (Exit 1, failedWith (invalidTag bad) st)).
Proof.
  split.
  - intros Hok. destruct (mapM_accepts tags st Hok) as (versions & Hvs & Hlen).
    exists versions. split; [|exact Hlen].
    now apply getRepoTags_parsed with (tags := tags).
  - intros good bad rest -> Hgood Hbad.
    assert (Hget : getRepoTags world st = (Exit 1, failedWith (invalidTag bad) st)).
    { unfold getRepoTags, bind. rewrite Htags. cbn [request ret].
      now apply mapM_rejects. }
    split; [exact Hget|]. intros flag action Haction.
    unfold release. rewrite (bind_Return _ _ _ _ _ Haction).
    unfold bind. now rewrite Hget.
Qed.

Lemma getRepoTags_all_or_nothing_witness :
  getRepoTags
    (mkWorld (Data []) (Data ["1.0.0"; "v2-rc"; "1.1.0-pre"])
       (fun tag => Rejected "Not Found")
       (fun tag pre => Data (exampleRelease tag pre)))
    initial
  = (Exit 1, failedWith (invalidTag "v2-rc") initial).
Proof.
  destruct (getRepoTags_all_or_nothing patchConfig
              (mkWorld (Data []) (Data ["1.0.0"; "v2-rc"; "1.1.0-pre"])
                 (fun tag => Rejected "Not Found")
                 (fun tag pre => Data (exampleRelease tag pre)))
              ["1.0.0"; "v2-rc"; "1.1.0-pre"] initial eq_refl) as [_ H].
  apply (H ["1.0.0"] "v2-rc" ["1.1.0-pre"]); reflexivity.
Defined.

(* ================================================================= *)
(** ** Configuration errors and policies that release nothing *)

(** X13.  An unknown release mode, a release mode that is a numeral of the
    enumeration or an inherited property name, and [promote_from] given with a
    mode other than [promote], mark the run as failed before any request, with
    the message of the source: the result does not depend on the
    repository. *)
Theorem main_configuration_errors (config : Config) (world : World) :
  (releaseMode config = Absent ->
   run config world
   = (Return tt,
      failedWith ("Invalid release_mode: " ++ releaseModeInput config
                  ++ ". release_mode must be one of 0, 1, 2, prerelease, release, promote.")
        initial))
  /\ (releaseMode config <> Absent ->
      releaseMode config <> Member promote_mode ->
      promoteFrom config <> EmptyString ->
      run config world
      = (Return tt,
         failedWith "promote_from was specified but release_mode was not promote. Please specify release_mode as promote." initial))
  /\ (forall text,
        releaseMode config = Foreign text -> promoteFrom config = EmptyString ->
        run config world
        = (Return tt, failedWith ("Unhandled release mode: " ++ text) initial)).
Proof.
  unfold run, main. split; [|split].
  - intros ->. reflexivity.
  - intros Habsent Hpromote Hfrom.
    apply String.eqb_neq in Hfrom. rewrite Hfrom.
    destruct (releaseMode config) as [[]| |]; try congruence; reflexivity.
  - intros text -> ->. reflexivity.
Qed.

Lemma main_configuration_errors_witness :
  run (mkConfig (Member patch_bump) Absent EmptyString "beta") exampleWorld
  = (Return tt,
     failedWith "Invalid release_mode: beta. release_mode must be one of 0, 1, 2, prerelease, release, promote." initial)
  /\ run (mkConfig (Member major_bump) (Member release_mode) "1.0.0-pre" "release")
       exampleWorld
     = (Return tt,
        failedWith "promote_from was specified but release_mode was not promote. Please specify release_mode as promote." initial)
  /\ run (mkConfig (Member patch_bump) (Foreign "release") EmptyString "1")
       exampleWorld
     = (Return tt, failedWith "Unhandled release mode: release" initial).
Proof.
  split; [|split].
  - apply (main_configuration_errors
             (mkConfig (Member patch_bump) Absent EmptyString "beta") exampleWorld).
    reflexivity.
  - apply (main_configuration_errors
             (mkConfig (Member major_bump) (Member release_mode) "1.0.0-pre"
                "release")
             exampleWorld); cbn; discriminate.
  - destruct (main_configuration_errors
                (mkConfig (Member patch_bump) (Foreign "release") EmptyString "1")
                exampleWorld) as (_ & _ & H).
    apply (H "release"); reflexivity.
Defined.

(** X14.  In the release and prerelease modes: the policy [norelease] ends
    the run with [release_created] false and nothing else; a policy that is
    not one of the five marks the run as failed, with the message of the
    source, and exits with code 1; the policy [prlabel] on a commit with no
    pull request logs an error and ends the run with [release_created] false.
    No tag is read in either case. *)
Theorem policies_without_release (config : Config) (world : World) (flag : bool)
    (Hmode : releaseMode config
             = Member (if flag then prerelease_mode else release_mode))
    (Hfrom : promoteFrom config = EmptyString) :
  (versionBump config = Member norelease ->
   run config world
   = (Return tt, withOutput "release_created" (OutBool false) initial))
  /\ (versionBump config = Absent ->
      run config world
      = (Exit 1, failedWith "Unhandled version bump mode: undefined" initial))
  /\ (forall text,
        versionBump config = Foreign text ->
        run config world
        = (Exit 1, failedWith ("Unhandled version bump mode: " ++ text) initial))
  /\ (versionBump config = Member prlabel ->
      listAssociatedPullRequests world = Data [] ->
      run config world
      = (Return tt,
         withOutput "release_created" (OutBool false)
           (logged "No PRs associated with this commit." initial))).
Proof.
  unfold run, main. rewrite Hmode, Hfrom.
  split; [|split; [|split]].
  - intros Hpolicy.
    destruct flag; cbn; unfold release, getVersionBumpAction; now rewrite Hpolicy.
  - intros Hpolicy.
    destruct flag; cbn; unfold release, getVersionBumpAction; now rewrite Hpolicy.
  - intros text Hpolicy.
    destruct flag; cbn; unfold release, getVersionBumpAction; now rewrite Hpolicy.
  - intros Hpolicy Hprs.
    destruct flag; cbn;
      unfold release, getVersionBumpAction, getVersionBumpActionFromPRLabel, bind;
      now rewrite Hpolicy, Hprs.
Qed.

Lemma policies_without_release_witness :
  run (mkConfig (Member norelease) (Member prerelease_mode) EmptyString "prerelease")
    exampleWorld
  = (Return tt, withOutput "release_created" (OutBool false) initial)
  /\ run (mkConfig Absent (Member release_mode) EmptyString "release") exampleWorld
     = (Exit 1, failedWith "Unhandled version bump mode: undefined" initial)
  /\ run (mkConfig (Foreign "patch") (Member release_mode) EmptyString "release")
       exampleWorld
     = (Exit 1, failedWith "Unhandled version bump mode: patch" initial).
Proof.
  split; [|split].
  - apply (policies_without_release
             (mkConfig (Member norelease) (Member prerelease_mode) EmptyString
                "prerelease")
             exampleWorld true); reflexivity.
  - destruct (policies_without_release
                (mkConfig Absent (Member release_mode) EmptyString "release")
                exampleWorld false eq_refl eq_refl) as (_ & H & _).
    apply H; reflexivity.
  - destruct (policies_without_release
                (mkConfig (Foreign "patch") (Member release_mode) EmptyString
                   "release")
                exampleWorld false eq_refl eq_refl) as (_ & _ & H & _).
    apply (H "patch"); reflexivity.
Defined.

(* ================================================================= *)
(** ** How a run can end *)

Lemma orderlyM_bind {A B} (c : M A) (k : A -> M B) :
  orderlyM c -> (forall a, orderlyM (k a)) -> orderlyM (bind c k).
Proof.
  intros Hc Hk st. unfold bind. specialize (Hc st).
  destruct (c st) as [[a|code|m] st1]; [apply Hk|exact Hc|exact I].
Qed.

Lemma orderlyM_ret {A} (a : A) : orderlyM (ret a).
Proof. intros st. exact I. Qed.

Lemma orderlyM_setFailed m : orderlyM (setFailed m).
Proof. intros st. exact I. Qed.

Lemma orderlyM_setOutput name value : orderlyM (setOutput name value).
Proof. intros st. exact I. Qed.

Lemma orderlyM_error m : orderlyM (error m).
Proof. intros st. exact I. Qed.

Lemma orderlyM_request {A} (r : response A) : orderlyM (request r).
Proof. intros st. destruct r; exact I. Qed.

Lemma orderlyM_fail_exit {A} m : orderlyM (setFailed m ;;; @exit A 1).
Proof. intros st. cbn. split; [reflexivity|discriminate]. Qed.

Lemma orderlyM_tagToVersion tag : orderlyM (tagToVersion tag).
Proof.
  intros st. rewrite tagToVersion_unfold.
  destruct (afterFirst "-" tag) as [suffix|]; [|exact I]. cbv zeta.
  destruct (String.eqb _ _); [exact I|]. split; [reflexivity|discriminate].
Qed.

Lemma orderlyM_mapM tags : orderlyM (mapM tagToVersion tags).
Proof.
  induction tags as [|tag tags IH]; cbn [mapM]; [apply orderlyM_ret|].
  apply orderlyM_bind; [apply orderlyM_tagToVersion|intros v].
  apply orderlyM_bind; [exact IH|intros vs]. apply orderlyM_ret.
Qed.

Lemma orderlyM_doRelease world version : orderlyM (doRelease world version).
Proof.
  intros st. unfold doRelease. destruct (createRelease world _ _); exact I.
Qed.

Ltac orderly_steps :=
  repeat first
    [ apply orderlyM_fail_exit
    | apply orderlyM_bind; [|intros ?]
    | apply orderlyM_ret | apply orderlyM_setFailed | apply orderlyM_setOutput
    | apply orderlyM_error | apply orderlyM_request | apply orderlyM_tagToVersion
    | apply orderlyM_mapM | apply orderlyM_doRelease
    | match goal with
      | |- orderlyM (match ?x with _ => _ end) => destruct x
      | |- orderlyM (if ?b then _ else _) => destruct b
      end ].

Lemma orderlyM_getVersionBumpAction config world :
  orderlyM (getVersionBumpAction config world).
Proof.
  unfold getVersionBumpAction, getVersionBumpActionFromPRLabel. orderly_steps.
Qed.

Lemma orderlyM_release config world flag : orderlyM (release config world flag).
Proof.
  unfold release, getRepoTags, setReleaseOutputs.
  apply orderlyM_bind; [apply orderlyM_getVersionBumpAction|intros a].
  orderly_steps.
Qed.

Lemma orderlyM_promote config world : orderlyM (promote config world).
Proof.
  unfold promote, promoteTarget, getRepoTags, getReleaseFromTag, setReleaseOutputs.
  orderly_steps.
Qed.

Lemma orderlyM_main config world : orderlyM (main config world).
Proof.
  unfold main.
  destruct (releaseMode config) as [[]| |];
    repeat match goal with
           | |- orderlyM (if ?b then _ else _) => destruct b
           end;
    first [ apply orderlyM_setFailed | apply orderlyM_release
          | apply orderlyM_promote ].
Qed.

(** X15.  A run never ends with an uncaught exception: it returns, or it exits
    with code 1 after having been marked as failed; an exception raised inside
    (a rejected request) is turned into a failed run that carries its
    message. *)
Theorem run_orderly (config : Config) (world : World) :
  orderly (run config world)
  /\ forall message st,
       main config world initial = (Throw message, st) ->
       run config world = (Return tt, failedWith message st).
Proof.
  split.
  - unfold run. pose proof (orderlyM_main config world initial) as H.
    destruct (main config world initial) as [[[]|code|m] st]; cbn; auto.
  - intros message st H. unfold run. now rewrite H.
Qed.

Lemma run_orderly_witness :
  run patchConfig
    (mkWorld (Data []) (Rejected "Bad credentials")
       (fun tag => Rejected "Not Found")
       (fun tag pre => Data (exampleRelease tag pre)))
  = (Return tt, failedWith "Bad credentials" initial).
Proof.
  apply (run_orderly patchConfig
           (mkWorld (Data []) (Rejected "Bad credentials")
              (fun tag => Rejected "Not Found")
              (fun tag pre => Data (exampleRelease tag pre)))).
  reflexivity.
Defined.

(* ================================================================= *)
(** ** At most one release per run *)

Lemma frame_bind {A B} (c : M A) (k : A -> M B) :
  frame c -> (forall a, frame (k a)) -> frame (bind c k).
Proof.
  intros Hc Hk st. unfold bind. destruct (Hc st) as (Hr & Ho & Hf).
  destruct (c st) as [[a|code|m] st1]; cbn in *.
  - destruct (Hk a st1) as (Hr' & Ho' & Hf').
    repeat split; [congruence|congruence|].
    intros b Hb. rewrite (Hf' b Hb). now apply (Hf a).
  - repeat split; try assumption. discriminate.
  - repeat split; try assumption. discriminate.
Qed.

Lemma frame_ret {A} (a : A) : frame (ret a).
Proof. intros st. repeat split. Qed.

Lemma frame_error m : frame (error m).
Proof. intros st. repeat split. Qed.

Lemma frame_request {A} (r : response A) : frame (request r).
Proof. intros st. destruct r; repeat split. Qed.

Lemma frame_fail_exit {A} m : frame (setFailed m ;;; @exit A 1).
Proof. intros st. cbn. repeat split. discriminate. Qed.

Lemma frame_tagToVersion tag : frame (tagToVersion tag).
Proof.
  intros st. rewrite tagToVersion_unfold.
  destruct (afterFirst "-" tag) as [suffix|]; [|repeat split]. cbv zeta.
  destruct (String.eqb _ _); repeat split. discriminate.
Qed.

Lemma frame_mapM tags : frame (mapM tagToVersion tags).
Proof.
  induction tags as [|tag tags IH]; cbn [mapM]; [apply frame_ret|].
  apply frame_bind; [apply frame_tagToVersion|intros v].
  apply frame_bind; [exact IH|intros vs]. apply frame_ret.
Qed.

Ltac frame_steps :=
  repeat first
    [ apply frame_fail_exit
    | apply frame_bind; [|intros ?]
    | apply frame_ret | apply frame_error | apply frame_request
    | apply frame_tagToVersion | apply frame_mapM
    | match goal with
      | |- frame (match ?x with _ => _ end) => destruct x
      | |- frame (if ?b then _ else _) => destruct b
      end ].

Lemma frame_getVersionBumpAction config world :
  frame (getVersionBumpAction config world).
Proof.
  unfold getVersionBumpAction, getVersionBumpActionFromPRLabel. frame_steps.
Qed.

Lemma frame_getRepoTags world : frame (getRepoTags world).
Proof. unfold getRepoTags. frame_steps. Qed.

Lemma frame_promoteTarget config world : frame (promoteTarget config world).
Proof. unfold promoteTarget, getRepoTags. frame_steps. Qed.

Lemma atMost_quiet st (r : outcome unit * RunState) :
  requested (snd r) = requested st -> outputs (snd r) = outputs st ->
  atMostOneRequest st r.
Proof.
  intros Hr Ho. exists []. rewrite app_nil_r.
  split; [exact Hr|]. split; [cbn; lia|].
  unfold announced. rewrite Ho. now left.
Qed.

Lemma atMost_after_frame {A} (c : M A) (k : A -> M unit) :
  frame c -> (forall a st1, atMostOneRequest st1 (k a st1)) ->
  forall st, atMostOneRequest st (bind c k st).
Proof.
  intros Hc Hk st. unfold bind. destruct (Hc st) as (Hr & Ho & Hf).
  destruct (c st) as [[a|code|m] st1]; cbn in *.
  - destruct (Hk a st1) as (extra & Hreq & Hlen & Hann).
    exists extra. rewrite <- Hr. split; [exact Hreq|]. split; [exact Hlen|].
    intros H. destruct (Hann H) as [H1|(H1 & H2 & H3)].
    + left. unfold announced in *. now rewrite <- Ho.
    + right. rewrite <- (Hf a eq_refl). auto.
  - now apply atMost_quiet.
  - now apply atMost_quiet.
Qed.

Lemma atMost_setFailed m st : atMostOneRequest st (setFailed m st).
Proof. now apply atMost_quiet. Qed.

Lemma atMost_not_created st :
  atMostOneRequest st (setOutput "release_created" (OutBool false) st).
Proof.
  exists []. rewrite app_nil_r. split; [reflexivity|]. split; [cbn; lia|].
  unfold announced. cbn. intros H. apply in_app_or in H as [H|[H|[]]].
  - now left.
  - discriminate.
Qed.

Lemma atMost_doRelease world version st :
  atMostOneRequest st
    ((newReleaseData <- doRelease world version ;;
      setReleaseOutputs version newReleaseData) st).
Proof.
  unfold bind, doRelease.
  destruct (createRelease world (toTag version) (isPreRelease version))
    as [data|m]; cbn.
  - exists [(toTag version, isPreRelease version)].
    split; [reflexivity|]. split; [cbn; lia|]. intros _. right. repeat split.
  - exists [(toTag version, isPreRelease version)].
    split; [reflexivity|]. split; [cbn; lia|]. intros H. now left.
Qed.

Lemma atMost_release config world flag st :
  atMostOneRequest st (release config world flag st).
Proof.
  unfold release.
  apply atMost_after_frame; [apply frame_getVersionBumpAction|].
  intros [action|] st1; [|apply atMost_not_created].
  apply atMost_after_frame; [apply frame_getRepoTags|].
  intros versions st2.
  destruct (findLatestVersion versions flag);
    [apply atMost_doRelease|apply atMost_setFailed].
Qed.

Lemma atMost_promote config world st :
  atMostOneRequest st (promote config world st).
Proof.
  unfold promote.
  apply atMost_after_frame; [apply frame_promoteTarget|].
  intros [target|] st1; [|apply atMost_setFailed].
  apply atMost_after_frame; [apply frame_request|].
  intros [found|] st2; [|apply atMost_setFailed].
  destruct (negb (release_prerelease found)); [apply atMost_setFailed|].
  apply atMost_after_frame; [apply frame_tagToVersion|].
  intros version st3. apply atMost_doRelease.
Qed.

Lemma atMost_main config world st :
  atMostOneRequest st (main config world st).
Proof.
  unfold main.
  destruct (releaseMode config) as [[]| |];
    repeat match goal with
           | |- atMostOneRequest _ ((if ?b then _ else _) _) => destruct b
           end;
    first [ apply atMost_setFailed | apply atMost_release | apply atMost_promote ].
Qed.

(** X16.  A run asks for at most one release, and it sets [release_created]
    to true only when it returns normally, was not marked as failed and asked
    for exactly one release. *)
Theorem run_requests_at_most_one_release (config : Config) (world : World) :
  (List.length (requested (snd (run config world))) <= 1)%nat
  /\ (announced (snd (run config world)) ->
      fst (run config world) = Return tt
      /\ failed (snd (run config world)) = None
      /\ exists tag pre, requested (snd (run config world)) = [(tag, pre)]).
Proof.
  destruct (atMost_main config world initial) as (extra & Hreq & Hlen & Hann).
  unfold run.
  destruct (main config world initial) as [[[]|code|m] st]; cbn in *.
  - split; [rewrite Hreq; exact Hlen|].
    intros H. destruct (Hann H) as [[]|(_ & Hf & Hone)].
    repeat split; [exact Hf|].
    destruct extra as [|[tag pre] [|? ?]]; try discriminate.
    exists tag, pre. exact Hreq.
  - split; [rewrite Hreq; exact Hlen|].
    intros H. destruct (Hann H) as [[]|(Hret & _)]. discriminate.
  - split; [rewrite Hreq; exact Hlen|].
    intros H. destruct (Hann H) as [[]|(Hret & _)]. discriminate.
Qed.

Lemma run_requests_at_most_one_release_witness :
  fst (run patchConfig exampleWorld) = Return tt
  /\ failed (snd (run patchConfig exampleWorld)) = None
  /\ exists tag pre, requested (snd (run patchConfig exampleWorld)) = [(tag, pre)].
Proof.
  apply (run_requests_at_most_one_release patchConfig exampleWorld).
  now left.
Defined.

(* ================================================================= *)
(** ** Rejected requests *)

(** X17.  In a release run whose bump action is known: when the listing of
    the tags is rejected the run is marked as failed with the message of the
    rejection; when the creation of the release is rejected the run is marked
    as failed with that message after the one request, and no output is set,
    not even [release_created]. *)
Theorem rejected_requests_fail_the_run (config : Config) (world : World)
    (flag : bool) (action : VersionBumpAction)
    (Hmode : releaseMode config
             = Member (if flag then prerelease_mode else release_mode))
    (Hfrom : promoteFrom config = EmptyString)
    (Haction : getVersionBumpAction config world initial
               = (Return (Some action), initial)) :
  (forall message,
     listRepositoryTags world = Rejected message ->
     run config world = (Return tt, failedWith message initial))
  /\ (forall tags versions latest message,
        listRepositoryTags world = Data tags ->
        mapM tagToVersion tags initial = (Return versions, initial) ->
        findLatestVersion versions flag = Some latest ->
        createRelease world (toTag (getNextVersion latest action flag))
          (isPreRelease (getNextVersion latest action flag)) = Rejected message ->
        run config world
        = (Return tt,
           failedWith message
             (requesting (toTag (getNextVersion latest action flag))
                (isPreRelease (getNextVersion latest action flag)) initial))
        /\ outputs (snd (run config world)) = []).
Proof.
  assert (Hmain : main config world initial = release config world flag initial).
  { unfold main. rewrite Hmode, Hfrom. destruct flag; reflexivity. }
  split.
  - intros message Hrej. unfold run. rewrite Hmain. unfold release.
    rewrite (bind_Return _ _ _ _ _ Haction).
    unfold getRepoTags, bind. now rewrite Hrej.
  - intros tags versions latest message Htags Hparse Hlatest Hrej.
    assert (Hrun : run config world
                   = (Return tt,
                      failedWith message
                        (requesting (toTag (getNextVersion latest action flag))
                           (isPreRelease (getNextVersion latest action flag))
                           initial))).
    { unfold run. rewrite Hmain. unfold release.
      rewrite (bind_Return _ _ _ _ _ Haction).
      rewrite (bind_Return _ _ _ _ _ (getRepoTags_parsed _ _ _ _ Htags Hparse)).
      rewrite Hlatest. unfold bind, doRelease. now rewrite Hrej. }
    split; [exact Hrun|]. now rewrite Hrun.
Qed.

Lemma rejected_requests_fail_the_run_witness :
  run patchConfig
    (mkWorld (Data []) (Data ["1.0.0"]) (fun tag => Rejected "Not Found")
       (fun tag pre => Rejected "Validation Failed"))
  = (Return tt, failedWith "Validation Failed" (requesting "1.0.1" false initial)).
Proof.
  destruct (rejected_requests_fail_the_run patchConfig
              (mkWorld (Data []) (Data ["1.0.0"]) (fun tag => Rejected "Not Found")
                 (fun tag pre => Rejected "Validation Failed"))
              false Patch eq_refl eq_refl eq_refl) as [_ H].
  apply (H ["1.0.0"] [finalVersion 1 0 0] (finalVersion 1 0 0) "Validation Failed");
    reflexivity.
Defined.

(* ================================================================= *)
(** ** More on promotion *)

Lemma tagToVersion_Return tag st v st' :
  tagToVersion tag st = (Return v, st') -> st' = st /\ rejects tag = false.
Proof.
  destruct (rejects tag) eqn:E.
  - rewrite (tagToVersion_rejects tag st E). discriminate.
  - destruct (tagToVersion_accepts tag st E) as [w ->]. intros [= _ <-]. now split.
Qed.

Lemma mapM_Return tags : forall st versions st',
  mapM tagToVersion tags st = (Return versions, st') -> st' = st.
Proof.
  induction tags as [|tag tags IH]; cbn [mapM]; intros st versions st'.
  - intros [= _ <-]. reflexivity.
  - unfold bind at 1.
    destruct (tagToVersion tag st) as [[v|c|m] st1] eqn:E; try discriminate.
    apply tagToVersion_Return in E as [-> _].
    unfold bind at 1.
    destruct (mapM tagToVersion tags st) as [[vs|c|m] st2] eqn:E2; try discriminate.
    apply IH in E2 as ->. intros [= _ <-]. reflexivity.
Qed.

Lemma promoteTarget_Return config world st target st' :
  promoteTarget config world st = (Return target, st') -> st' = st.
Proof.
  unfold promoteTarget, getRepoTags.
  destruct (String.eqb (promoteFrom config) EmptyString); unfold bind.
  - destruct (listRepositoryTags world) as [tags|m]; cbn [request ret throw];
      [|discriminate].
    destruct (mapM tagToVersion tags st) as [[vs|c|m] st1] eqn:E; try discriminate.
    apply mapM_Return in E as ->. intros [= _ <-]. reflexivity.
  - destruct (tagToVersion (promoteFrom config) st) as [[v|c|m] st1] eqn:E;
      try discriminate.
    apply tagToVersion_Return in E as [-> _]. intros [= _ <-]. reflexivity.
Qed.

(** X18.  [promote] asks for a release only when a target version was found,
    the hosting service has a release for the tag of that version, this
    release is flagged as a prerelease and its tag name is accepted by the
    parser. *)
Theorem promote_requires_prerelease (config : Config) (world : World)
    (st : RunState)
    (Hasked : requested (snd (promote config world st)) <> requested st) :
  exists target found,
    promoteTarget config world st = (Return (Some target), st)
    /\ getReleaseByTag world (toTag target) = Data (Some found)
    /\ release_prerelease found = true
    /\ rejects (tag_name found) = false.
Proof.
  revert Hasked. unfold promote. unfold bind at 1.
  pose proof (frame_promoteTarget config world st) as (Hr & _ & _).
  destruct (promoteTarget config world st) as [[[target|]|c|m] st1] eqn:E;
    cbn in Hr; try (cbn; congruence).
  apply promoteTarget_Return in E as Hst. subst st1.
  unfold bind at 1, getReleaseFromTag.
  destruct (getReleaseByTag world (toTag target)) as [[found|]|m] eqn:Hget;
    cbn [request ret throw]; try (cbn; congruence).
  destruct (release_prerelease found) eqn:Hflag; cbn [negb];
    [|cbn; congruence].
  intros Hasked. exists target, found.
  split; [reflexivity|]. split; [exact Hget|]. split; [exact Hflag|].
  destruct (rejects (tag_name found)) eqn:Hrej; [|reflexivity].
  exfalso. apply Hasked. unfold bind.
  now rewrite (tagToVersion_rejects _ st Hrej).
Qed.

Lemma promote_requires_prerelease_witness :
  exists target found,
    promoteTarget (mkConfig Absent (Member promote_mode) "2.0.0-pre.1" "promote")
      exampleWorld initial = (Return (Some target), initial)
    /\ getReleaseByTag exampleWorld (toTag target) = Data (Some found)
    /\ release_prerelease found = true
    /\ rejects (tag_name found) = false.
Proof.
  apply (promote_requires_prerelease
           (mkConfig Absent (Member promote_mode) "2.0.0-pre.1" "promote")
           exampleWorld initial).
  vm_compute. discriminate.
Defined.

(** X19.  Promotion of a release that is flagged as a prerelease but whose
    tag [M.N.P] carries no prerelease suffix does not keep the triple: it asks
    for the final release [M.N.(P+1)] (components up to 2^53, patch below). *)
Theorem promote_of_final_tag_bumps_patch (M N P : Z) (config : Config)
    (world : World) (found created : Release) (st : RunState)
    (HM : small M) (HN : small N) (HP : 0 <= P < limit)
    (Hfrom : promoteFrom config = tripleString M N P)
    (Hfound : getReleaseByTag world (tripleString M N P) = Data (Some found))
    (Htag : tag_name found = tripleString M N P)
    (Hflag : release_prerelease found = true)
    (Hcreated : createRelease world (tripleString M N (P + 1)) false = Data created) :
  promote config world st
  = setReleaseOutputs (finalVersion M N (P + 1)) created
      (requesting (tripleString M N (P + 1)) false st).
Proof.
  assert (HP0 : small P) by (unfold small; lia).
  assert (HP1 : small (P + 1)) by (unfold small; lia).
  assert (HPe : exact P) by (pose proof limit_pos; unfold exact; lia).
  assert (Hparse : forall s,
            tagToVersion (tripleString M N P) s = (Return (finalVersion M N P), s)).
  { intros s. rewrite tagToVersion_no_suffix, fieldsOf_tripleString
      by auto using tripleString_no_dash. reflexivity. }
  assert (Htarget : promoteTarget config world st
                    = (Return (Some (finalVersion M N P)), st)).
  { unfold promoteTarget. rewrite Hfrom.
    assert (Hne : String.eqb (tripleString M N P) EmptyString = false).
    { pose proof (tripleString_eqb_empty M N P EmptyString) as H.
      now rewrite append_empty_r in H. }
    rewrite Hne. now rewrite (bind_Return _ _ _ _ _ (Hparse st)). }
  unfold promote. rewrite (bind_Return _ _ _ _ _ Htarget).
  rewrite toTag_finalVersion by assumption.
  assert (Hget : getReleaseFromTag world (tripleString M N P) st
                 = (Return (Some found), st))
    by (unfold getReleaseFromTag; now rewrite Hfound).
  rewrite (bind_Return _ _ _ _ _ Hget), Hflag. cbn [negb].
  rewrite Htag, (bind_Return _ _ _ _ _ (Hparse st)).
  assert (Hnext : getNextVersion (finalVersion M N P) Patch false
                  = finalVersion M N (P + 1)).
  { unfold getNextVersion. rewrite isPreRelease_finalVersion.
    cbn [bumpFromReleaseToRelease finalVersion final_Version patch major minor succ].
    now rewrite addOne_exact. }
  rewrite Hnext.
  assert (Hdo : doRelease world (finalVersion M N (P + 1)) st
                = (Return created, requesting (tripleString M N (P + 1)) false st)).
  { unfold doRelease.
    rewrite toTag_finalVersion, isPreRelease_finalVersion, Hcreated
      by assumption.
    reflexivity. }
  now rewrite (bind_Return _ _ _ _ _ Hdo).
Qed.

Lemma promote_of_final_tag_bumps_patch_witness :
  requested (snd (promote (mkConfig Absent (Member promote_mode) "1.0.0" "promote")
                    exampleWorld initial))
  = [("1.0.1", false)].
Proof.
  rewrite (promote_of_final_tag_bumps_patch 1 0 0
             (mkConfig Absent (Member promote_mode) "1.0.0" "promote") exampleWorld
             (exampleRelease "1.0.0" true) (exampleRelease "1.0.1" false) initial
             ltac:(in_range) ltac:(in_range) ltac:(in_range)
             eq_refl eq_refl eq_refl eq_refl eq_refl).
  reflexivity.
Defined.

(* ================================================================= *)
(** ** The two variants of the release modes *)

Lemma next_target M N P k X p :
  (k < MAX_VALUE -> p = true -> k + 1 < MAX_VALUE) ->
  isPreRelease (getNextVersion (preVersion M N P k) X p) = p.
Proof.
  intros Hroom. unfold getNextVersion. rewrite isPreRelease_preVersion.
  destruct (Z.ltb_spec k MAX_VALUE) as [Hk|Hk], p;
    try (destruct X; reflexivity).
  - specialize (Hroom Hk eq_refl). apply addOne_room in Hroom.
    destruct X; engine_cases;
      repeat match goal with
             | |- context [if ?c then _ else _] => destruct c; cbn
             end;
      unfold isPreRelease; cbn; try reflexivity; now apply Z.ltb_lt.
  - destruct X; engine_cases;
      repeat match goal with
             | |- context [if ?c then _ else _] => destruct c; cbn
             end; reflexivity.
Qed.

Lemma toTag_inj v w :
  wellFormed v = true -> wellFormed w = true -> toTag v = toTag w -> v = w.
Proof.
  intros Hv Hw Htag.
  pose proof (tagToVersion_toTag v initial Hv) as H1.
  rewrite Htag, (tagToVersion_toTag w initial Hw) in H1. now injection H1.
Qed.

Lemma wellFormed_numeric v : wellFormed v = true -> numeric v = true.
Proof.
  intros Hv. destruct (wellFormed_elim v Hv) as (M & N & P & k & -> & _).
  reflexivity.
Qed.

Lemma wellFormed_allNumeric versions :
  Forall (fun v => wellFormed v = true) versions -> allNumeric versions.
Proof.
  unfold allNumeric. rewrite !Forall_forall.
  intros H v Hv. now apply wellFormed_numeric, H.
Qed.

(** On an incrementable version that is well formed the next version is
    above it and has the finality asked for. *)
Lemma next_of_incrementable M N P k X p :
  wellFormed (preVersion M N P k) = true ->
  incrementable (preVersion M N P k) = true ->
  compare (getNextVersion (preVersion M N P k) X p) (preVersion M N P k) = 1
  /\ isPreRelease (getNextVersion (preVersion M N P k) X p) = p.
Proof.
  intros Hwf Hinc.
  destruct (wellFormed_elim _ Hwf) as (M' & N' & P' & k' & E & HM & HN & HP & Hk).
  injection E as <- <- <- <-.
  unfold incrementable in Hinc. cbn [major minor patch prerelease preVersion] in Hinc.
  apply andb_prop in Hinc as [Hinc Hk']. apply andb_prop in Hinc as [Hinc HP'].
  apply andb_prop in Hinc as [HM' HN']. apply Z.ltb_lt in HM', HN', HP'.
  pose proof limit_pos as Hl. pose proof limit_below_MAX_VALUE as Hmax.
  unfold small in *.
  assert (Hord : k < MAX_VALUE -> 0 <= k < limit).
  { intros Hlt. apply orb_prop in Hk' as [Hk'|Hk'].
    - apply Z.ltb_lt in Hk'. destruct Hk as [Hk|Hk]; lia.
    - apply Z.eqb_eq in Hk'. lia. }
  split.
  - apply next_above.
    + destruct X; cbn [component]; unfold exact; lia.
    + rewrite isPreRelease_preVersion. intros Hlt _. apply Z.ltb_lt in Hlt.
      unfold exact. specialize (Hord Hlt). lia.
  - apply next_target. intros Hlt _. specialize (Hord Hlt). lia.
Qed.

(** X20.  With well-formed tags, neither variant asks for a tag that the
    repository already has: the next version is never one of the parsed
    versions, provided the version that the run starts from has its
    components below 2^53 and, if it is a prerelease, its ordinal too. *)
Theorem release_tag_is_new (versions : list Version) (flag : bool)
    (action : VersionBumpAction) (latest : Version)
    (Hwf : Forall (fun v => wellFormed v = true) versions)
    (Hinc : incrementable latest = true) :
  (findLatestVersion versions flag = Some latest ->
   ~ In (toTag (getNextVersion latest action flag)) (map toTag versions))
  /\ (Dist.findLatestVersion versions false = Some latest ->
      ~ In (toTag (getNextVersion latest action flag)) (map toTag versions)).
Proof.
  assert (Hnum := wellFormed_allNumeric versions Hwf).
  rewrite Forall_forall in Hwf.
  assert (Hback : forall next,
            wellFormed next = true ->
            In (toTag next) (map toTag versions) -> In next versions).
  { intros next Hnext Hin. apply in_map_iff in Hin as (w & Htag & Hw).
    now rewrite <- (toTag_inj w next (Hwf w Hw) Hnext Htag). }
  split.
  - intros Hlatest Hin.
    destruct (findLatestVersion_greatest versions flag latest Hnum Hlatest)
      as (Hmem & Hflag & Hmax).
    pose proof (Hwf latest Hmem) as Hl.
    apply Hback in Hin; [|now apply next_wellFormed].
    destruct (wellFormed_elim latest Hl) as (M & N & P & k & -> & _).
    destruct (next_of_incrementable M N P k action flag Hl Hinc) as [Habove Hfin].
    pose proof (Hmax _ Hin Hfin) as Hle. lia.
  - intros Hlatest Hin. unfold Dist.findLatestVersion in Hlatest.
    destruct versions as [|first rest]; [discriminate|].
    injection Hlatest as E.
    destruct (reduce_greatest rest first Hnum) as [Hmem Hmax]. fold pick in *.
    rewrite E in Hmem, Hmax.
    pose proof (Hwf latest Hmem) as Hl.
    apply Hback in Hin; [|now apply next_wellFormed].
    destruct (wellFormed_elim latest Hl) as (M & N & P & k & -> & _).
    destruct (next_of_incrementable M N P k action flag Hl Hinc) as [Habove _].
    pose proof (Hmax _ Hin) as Hle. lia.
Qed.

Lemma release_tag_is_new_witness :
  ~ In (toTag (getNextVersion (preVersion 1 1 0 0) Minor true))
       (map toTag [finalVersion 1 0 0; preVersion 1 1 0 0]).
Proof.
  assert (Hwf : Forall (fun v => wellFormed v = true)
                  [finalVersion 1 0 0; preVersion 1 1 0 0])
    by (repeat constructor).
  destruct (release_tag_is_new [finalVersion 1 0 0; preVersion 1 1 0 0] true Minor
              (preVersion 1 1 0 0) Hwf eq_refl) as [H _].
  apply H. reflexivity.
Defined.

(** X21.  In [dist/index.js], once the bump action is known and the tags are
    parsed, [release] starts from the greatest of all the parsed versions,
    whatever the target, and fails only when there is no tag at all. *)
Theorem Dist_release_selects_greatest_of_all
    (config : Config) (world : World) (flag : bool) (action : VersionBumpAction)
    (tags : list string) (versions : list Version) (st : RunState)
    (Haction : getVersionBumpAction config world st = (Return (Some action), st))
    (Htags : listRepositoryTags world = Data tags)
    (Hparse : mapM tagToVersion tags st = (Return versions, st))
    (Hnum : allNumeric versions) :
  match Dist.findLatestVersion versions false with
  | Some latest =>
      In latest versions
      /\ (forall w, In w versions -> compare w latest <= 0)
      /\ DistRun.release config world flag st
         = (newReleaseData <- doRelease world (getNextVersion latest action flag) ;;
            setReleaseOutputs (getNextVersion latest action flag) newReleaseData) st
  | None =>
      versions = []
      /\ DistRun.release config world flag st = setFailed "No releases found." st
  end.
Proof.
  assert (Hrelease : DistRun.release config world flag st =
    match Dist.findLatestVersion versions false with
    | None => setFailed "No releases found." st
    | Some latest =>
        (newReleaseData <- doRelease world (getNextVersion latest action flag) ;;
         setReleaseOutputs (getNextVersion latest action flag) newReleaseData) st
    end).
  { unfold DistRun.release. rewrite (bind_Return _ _ _ _ _ Haction).
    rewrite (bind_Return _ _ _ _ _ (getRepoTags_parsed _ _ _ _ Htags Hparse)).
    destruct (Dist.findLatestVersion versions false); reflexivity. }
  unfold Dist.findLatestVersion in *.
  destruct versions as [|first rest].
  - split; [reflexivity|exact Hrelease].
  - destruct (reduce_greatest rest first Hnum) as [Hmem Hmax].
    split; [exact Hmem|]. split; [exact Hmax|exact Hrelease].
Qed.

Lemma Dist_release_selects_greatest_of_all_witness :
  In (preVersion 1 1 0 0) [finalVersion 1 0 0; preVersion 1 1 0 0]
  /\ (forall w, In w [finalVersion 1 0 0; preVersion 1 1 0 0] ->
                compare w (preVersion 1 1 0 0) <= 0)
  /\ DistRun.release patchConfig exampleWorld false initial
     = (newReleaseData <- doRelease exampleWorld
                            (getNextVersion (preVersion 1 1 0 0) Patch false) ;;
        setReleaseOutputs (getNextVersion (preVersion 1 1 0 0) Patch false)
          newReleaseData) initial.
Proof.
  apply (Dist_release_selects_greatest_of_all patchConfig exampleWorld false Patch
           ["1.0.0"; "1.1.0-pre"] [finalVersion 1 0 0; preVersion 1 1 0 0] initial
           eq_refl eq_refl eq_refl).
  repeat constructor.
Defined.

(** X22.  A prerelease asked for on a history that holds final releases only
    (integer fields): the TypeScript source finds nothing to start from and
    marks the run as failed, while [dist/index.js] starts from the greatest
    final release and asks for a prerelease at ordinal 0. *)
Theorem first_prerelease_of_a_line
    (config : Config) (world : World) (action : VersionBumpAction)
    (tags : list string) (versions : list Version) (st : RunState)
    (Haction : getVersionBumpAction config world st = (Return (Some action), st))
    (Htags : listRepositoryTags world = Data tags)
    (Hparse : mapM tagToVersion tags st = (Return versions, st))
    (Hnum : allNumeric versions)
    (Hsome : versions <> [])
    (Hfinal : forall w, In w versions -> isPreRelease w = false) :
  release config world true st = setFailed "No releases found." st
  /\ exists latest,
       In latest versions
       /\ isPreRelease latest = false
       /\ (forall w, In w versions -> compare w latest <= 0)
       /\ prerelease (getNextVersion latest action true) = Num 0
       /\ isPreRelease (getNextVersion latest action true) = true
       /\ DistRun.release config world true st
          = (newReleaseData <- doRelease world (getNextVersion latest action true) ;;
             setReleaseOutputs (getNextVersion latest action true) newReleaseData) st.
Proof.
  split.
  - unfold release. rewrite (bind_Return _ _ _ _ _ Haction).
    rewrite (bind_Return _ _ _ _ _ (getRepoTags_parsed _ _ _ _ Htags Hparse)).
    destruct (findLatestVersion versions true) as [latest|] eqn:E; [|reflexivity].
    destruct (findLatestVersion_greatest versions true latest Hnum E)
      as (Hmem & Hflag & _).
    rewrite (Hfinal latest Hmem) in Hflag. discriminate.
  - pose proof (Dist_findLatestVersion_greatest versions) as Hdist.
    destruct (Dist.findLatestVersion versions false) as [latest|] eqn:E.
    + destruct (Hdist latest Hnum eq_refl) as [Hmem Hmax].
      assert (Hnext : prerelease (getNextVersion latest action true) = Num 0).
      { unfold getNextVersion. rewrite (Hfinal latest Hmem).
        destruct action; reflexivity. }
      exists latest. split; [exact Hmem|]. split; [now apply Hfinal|].
      split; [exact Hmax|]. split; [exact Hnext|]. split.
      * unfold isPreRelease. rewrite Hnext. reflexivity.
      * unfold DistRun.release. rewrite (bind_Return _ _ _ _ _ Haction).
        rewrite (bind_Return _ _ _ _ _ (getRepoTags_parsed _ _ _ _ Htags Hparse)).
        now rewrite E.
    + unfold Dist.findLatestVersion in E. destruct versions; congruence.
Qed.

Lemma first_prerelease_of_a_line_witness :
  release (mkConfig (Member minor_bump) (Member prerelease_mode) EmptyString
             "prerelease")
    (mkWorld (Data []) (Data ["1.0.0"; "1.1.0"]) (fun tag => Rejected "Not Found")
       (fun tag pre => Data (exampleRelease tag pre)))
    true initial
  = setFailed "No releases found." initial.
Proof.
  apply (first_prerelease_of_a_line
           (mkConfig (Member minor_bump) (Member prerelease_mode) EmptyString
              "prerelease")
           (mkWorld (Data []) (Data ["1.0.0"; "1.1.0"])
              (fun tag => Rejected "Not Found")
              (fun tag pre => Data (exampleRelease tag pre)))
           Minor ["1.0.0"; "1.1.0"] [finalVersion 1 0 0; finalVersion 1 1 0] initial
           eq_refl eq_refl eq_refl).
  - repeat constructor.
  - discriminate.
  - intros w [<-|[<-|[]]]; reflexivity.
Defined.

(** X23.  In [dist/index.js], [promote] with no [promote_from] takes the
    greatest prerelease among well-formed tags and, when the hosting service
    has a release flagged as prerelease under its tag, asks for the final
    release of the same triple. *)
Theorem Dist_promote_finalises_latest_prerelease
    (config : Config) (world : World) (tags : list string)
    (versions : list Version) (target : Version) (found created : Release)
    (st : RunState)
    (Hfrom : promoteFrom config = EmptyString)
    (Htags : listRepositoryTags world = Data tags)
    (Hparse : mapM tagToVersion tags st = (Return versions, st))
    (Hwf : Forall (fun v => wellFormed v = true) versions)
    (Htarget : Dist.findLatestVersion versions true = Some target)
    (Hfound : getReleaseByTag world (toTag target) = Data (Some found))
    (Htag : tag_name found = toTag target)
    (Hflag : release_prerelease found = true)
    (Hcreated : createRelease world (upTo "-" (toTag target)) false = Data created) :
  greatestOfFinality true versions target
  /\ exists M N P,
       tripleOf target = Some (M, N, P)
       /\ DistRun.promote config world st
          = setReleaseOutputs (finalVersion M N P) created
              (requesting (tripleString M N P) false st).
Proof.
  assert (Hnum := wellFormed_allNumeric versions Hwf).
  assert (Hsame : findLatestVersion versions true = Some target)
    by now rewrite <- Dist_findLatestVersion_prereleases.
  pose proof (findLatestVersion_greatest versions true target Hnum Hsame) as Hgreat.
  split; [exact Hgreat|]. destruct Hgreat as (Hmem & Hpre & _).
  rewrite Forall_forall in Hwf. pose proof (Hwf target Hmem) as Ht.
  destruct (wellFormed_elim target Ht) as (M & N & P & k & -> & HM & HN & HP & Hk).
  rewrite isPreRelease_preVersion in Hpre. apply Z.ltb_lt in Hpre.
  assert (Hk' : small k) by (destruct Hk as [Hk|Hk]; [exact Hk|lia]).
  exists M, N, P. split; [reflexivity|].
  assert (Hparse1 : tagToVersion (toTag (preVersion M N P k)) st
                    = (Return (preVersion M N P k), st))
    by now apply tagToVersion_toTag.
  assert (Hcut : upTo "-" (toTag (preVersion M N P k)) = tripleString M N P).
  { rewrite toTag_preVersion by assumption. destruct (k =? 0).
    - change (tripleString M N P ++ "-pre")%string
        with (tripleString M N P ++ String "-" "pre")%string.
      now rewrite upTo_append by apply tripleString_no_dash.
    - change (tripleString M N P ++ "-pre." ++ decimal k)%string
        with (tripleString M N P ++ String "-" ("pre." ++ decimal k))%string.
      now rewrite upTo_append by apply tripleString_no_dash. }
  rewrite Hcut in Hcreated.
  assert (Hpick : DistRun.promoteTarget config world st
                  = (Return (Some (preVersion M N P k)), st)).
  { unfold DistRun.promoteTarget. rewrite Hfrom. cbn [String.eqb].
    rewrite (bind_Return _ _ _ _ _ (getRepoTags_parsed _ _ _ _ Htags Hparse)).
    now rewrite Htarget. }
  unfold DistRun.promote. rewrite (bind_Return _ _ _ _ _ Hpick).
  assert (Hget : getReleaseFromTag world (toTag (preVersion M N P k)) st
                 = (Return (Some found), st))
    by (unfold getReleaseFromTag; now rewrite Hfound).
  rewrite (bind_Return _ _ _ _ _ Hget), Hflag. cbn [negb].
  rewrite Htag, (bind_Return _ _ _ _ _ Hparse1).
  rewrite (promotion_transition M N P k (proj1 HP) Hpre).
  assert (Hdo : doRelease world (finalVersion M N P) st
                = (Return created, requesting (tripleString M N P) false st)).
  { unfold doRelease.
    rewrite toTag_finalVersion, isPreRelease_finalVersion, Hcreated by assumption.
    reflexivity. }
  now rewrite (bind_Return _ _ _ _ _ Hdo).
Qed.

Lemma Dist_promote_finalises_latest_prerelease_witness :
  greatestOfFinality true [finalVersion 1 0 0; preVersion 1 1 0 0]
    (preVersion 1 1 0 0)
  /\ exists M N P,
       tripleOf (preVersion 1 1 0 0) = Some (M, N, P)
       /\ DistRun.promote promoteConfig exampleWorld initial
          = setReleaseOutputs (finalVersion M N P)
              (exampleRelease "1.1.0" false)
              (requesting (tripleString M N P) false initial).
Proof.
  apply (Dist_promote_finalises_latest_prerelease promoteConfig exampleWorld
           ["1.0.0"; "1.1.0-pre"] [finalVersion 1 0 0; preVersion 1 1 0 0]
           (preVersion 1 1 0 0) (exampleRelease "1.1.0-pre" true)
           (exampleRelease "1.1.0" false) initial
           eq_refl eq_refl eq_refl);
    try reflexivity.
  repeat constructor.
Defined.

(* ================================================================= *)
(** ** What the parser lets through *)

Lemma fieldsOf_more M N P rest :
  small M -> small N -> small P ->
  fieldsOf (tripleString M N P ++ String "." rest) = (Num M, Num N, Num P).
Proof.
  intros HM HN HP. unfold fieldsOf, tripleString.
  change ("." ++ decimal N ++ "." ++ decimal P)%string
    with (String "." (decimal N ++ String "." (decimal P))).
  rewrite !append_assoc. cbn [append]. rewrite !append_assoc. cbn [append].
  rewrite !split_append by apply decimal_no_dot.
  cbn [map item nth_error field]. now rewrite !parseInt_decimal by assumption.
Qed.

Lemma fieldsOf_two M N :
  small M -> small N ->
  fieldsOf (decimal M ++ String "." (decimal N)) = (Num M, Num N, Undefined).
Proof.
  intros HM HN. unfold fieldsOf.
  rewrite split_append, split_absent by apply decimal_no_dot.
  cbn [map item nth_error field]. now rewrite !parseInt_decimal by assumption.
Qed.

(** X24.  The version part of a tag is not validated (numerals up to 2^53):
    components after the third are ignored, so that [M.N.P.rest] reads as
    [M.N.P]; a tag [M.N] with two components parses with an undefined patch,
    and a patch release from it asks for the tag [M.N.NaN]. *)
Theorem version_part_not_validated (M N P : Z) (rest : string) (st : RunState)
    (HM : small M) (HN : small N) (HP : small P)
    (Hrest : contains "-" rest = false) :
  tagToVersion (tripleString M N P ++ String "." rest) st
  = (Return (finalVersion M N P), st)
  /\ tagToVersion (decimal M ++ String "." (decimal N)) st
     = (Return (new_Version (Num M) (Num N) Undefined (Num MAX_VALUE)), st)
  /\ toTag (getNextVersion
              (new_Version (Num M) (Num N) Undefined (Num MAX_VALUE)) Patch false)
     = (decimal M ++ "." ++ decimal N ++ ".NaN")%string.
Proof.
  split; [|split].
  - rewrite tagToVersion_no_suffix, fieldsOf_more; try assumption; [reflexivity|].
    rewrite contains_append, tripleString_no_dash. cbn. exact Hrest.
  - rewrite tagToVersion_no_suffix, fieldsOf_two; try assumption; [reflexivity|].
    rewrite contains_append, decimal_no_dash. cbn. apply decimal_no_dash.
  - assert (Hnext : getNextVersion
                      (new_Version (Num M) (Num N) Undefined (Num MAX_VALUE))
                      Patch false
                    = new_Version (Num M) (Num N) NaN (Num MAX_VALUE))
      by reflexivity.
    rewrite Hnext.
    assert (Htag : toTag (new_Version (Num M) (Num N) NaN (Num MAX_VALUE))
                   = triple_text (new_Version (Num M) (Num N) NaN (Num MAX_VALUE)))
      by reflexivity.
    rewrite Htag. unfold triple_text. cbn [major minor patch].
    now rewrite !toString_natural by assumption.
Qed.

Lemma version_part_not_validated_witness :
  tagToVersion (tripleString 1 2 3 ++ String "." "4.beta") initial
  = (Return (finalVersion 1 2 3), initial).
Proof.
  apply (version_part_not_validated 1 2 3 "4.beta" initial); try in_range.
  reflexivity.
Defined.

(** X25.  A tag [body-pre.text] whose ordinal text does not start with a
    digit is accepted and read as a final release: its ordinal is [NaN], it
    is not a prerelease, and its tag is printed without suffix. *)
Theorem unreadable_ordinal_is_final (body text : string) (st : RunState)
    (Hbody : contains "-" body = false)
    (Hdash : contains "-" text = false) (Hdot : contains "." text = false)
    (Hnan : parseInt text = NaN) :
  exists v,
    tagToVersion (body ++ "-pre." ++ text) st = (Return v, st)
    /\ prerelease v = NaN /\ isPreRelease v = false
    /\ toTag v = triple_text v.
Proof.
  change (body ++ "-pre." ++ text)%string
    with (body ++ String "-" ("pre" ++ String "." text))%string.
  rewrite tagToVersion_unfold, afterFirst_append, upTo_append by assumption.
  cbv zeta.
  assert (Hd : contains "-" ("pre" ++ String "." text) = false)
    by (rewrite contains_append; cbn; exact Hdash).
  rewrite (upTo_absent "-" _ Hd), upTo_append, afterFirst_append by reflexivity.
  rewrite (upTo_absent "." _ Hdot), Hnan.
  eexists. split; [reflexivity|].
  destruct (fieldsOf body) as [[a b] c]. cbn [withOrdinal].
  repeat split.
Qed.

Lemma unreadable_ordinal_is_final_witness :
  exists v,
    tagToVersion ("1.0.0" ++ "-pre." ++ "rc1") initial = (Return v, initial)
    /\ prerelease v = NaN /\ isPreRelease v = false
    /\ toTag v = triple_text v.
Proof.
  apply (unreadable_ordinal_is_final "1.0.0" "rc1" initial); reflexivity.
Defined.
